(** * github-artifact-download: a shallow embedding and its properties

    The program is one Python script, [github-artifact-download.py].  It
    pages through the GitHub REST API to pick a workflow run and an
    artifact, streams the artifact to a local file and keeps the identifier
    of the last downloaded artifact in an optional cache file.

    The embedding follows the script function by function.  Python values
    decoded from JSON are an inductive type, exceptions are an outcome of
    every operation, and the effects of the script (HTTP requests, the file
    system, the two output streams) are threaded through a state monad. *)

From Stdlib Require Import ZArith Ascii String.
From stdpp Require Import base strings list gmap pretty.

Open Scope string_scope.
Open Scope Z_scope.

(** ** Python values

    What [json.loads] can produce, floats apart: no field the script reads
    is a float, and they are left out of the model.  A [dict] is kept as
    an association list in insertion order; lookup takes the first binding
    (a decoded JSON object has no duplicate keys).  Strings are sequences
    of bytes, the UTF-8 encoding of the Python text. *)

#[warnings="-register-all"]
Inductive pyval : Type :=
| PNone
| PBool (b : bool)
| PInt (n : Z)
| PStr (s : string)
| PList (l : list pyval)
| PDict (d : list (string * pyval)).

(** Exceptions.  All of them derive from [Exception], so the handler of the
    [__main__] block catches every one. *)
Inductive exn : Type :=
| KeyError (key : string)
| TypeError
| AttributeError
| ValueError
| RuntimeError (msg : string)
| URLError
| HTTPException
| OSError.

(** The outcome of running a piece of the script: a value, a raised
    exception, or [OutOfFuel] when the bound put on the pagination loop is
    reached before the script has finished. *)
Inductive outcome (A : Type) : Type :=
| Ret (a : A)
| Exc (e : exn)
| OutOfFuel.
Arguments Ret {A} a.
Arguments Exc {A} e.
Arguments OutOfFuel {A}.

Definition obind {A B} (o : outcome A) (k : A → outcome B) : outcome B :=
  match o with
  | Ret a => k a
  | Exc e => Exc e
  | OutOfFuel => OutOfFuel
  end.

(** *** Truth value testing: [bool(v)], [if v], [not v], [a or b] *)

Definition str_truthy (s : string) : bool :=
  match s with EmptyString => false | String _ _ => true end.

Definition opt_truthy (o : option string) : bool :=
  match o with Some s => str_truthy s | None => false end.

Definition py_truthy (v : pyval) : bool :=
  match v with
  | PNone => false
  | PBool b => b
  | PInt n => negb (n =? 0)
  | PStr s => str_truthy s
  | PList l => match l with [] => false | _ :: _ => true end
  | PDict d => match d with [] => false | _ :: _ => true end
  end.

(** [a or b] on optional strings (an argparse option is a [str] or [None]). *)
Definition py_or (a b : option string) : option string :=
  if opt_truthy a then a else b.

(** *** Comparison with a string: [v == s], [v != s]

    The script only ever compares a decoded value with a [str]; values of
    the other types are never equal to one. *)
Definition py_eq_str (v : pyval) (s : string) : bool :=
  match v with
  | PStr t => String.eqb t s
  | _ => false
  end.

Definition py_ne_str (v : pyval) (s : string) : bool := negb (py_eq_str v s).

(** *** Subscription [v[key]] and [v.get(key, default)] with a string key *)

Fixpoint dict_lookup (d : list (string * pyval)) (key : string) : option pyval :=
  match d with
  | [] => None
  | (k, v) :: d' => if String.eqb k key then Some v else dict_lookup d' key
  end.

Definition py_getitem (v : pyval) (key : string) : outcome pyval :=
  match v with
  | PDict d =>
      match dict_lookup d key with
      | Some x => Ret x
      | None => Exc (KeyError key)
      end
  | _ => Exc TypeError
  end.

Definition py_get (v : pyval) (key : string) (dflt : pyval) : outcome pyval :=
  match v with
  | PDict d => Ret (default dflt (dict_lookup d key))
  | _ => Exc AttributeError
  end.

(** *** Iteration: [for x in v]

    A list yields its elements, a dict its keys, a string its characters
    (one string per code point: a lead byte with the continuation bytes
    [10xxxxxx] that follow it); the other values are not iterable. *)

Definition is_continuation (c : ascii) : bool :=
  let n := N_of_ascii c in ((128 <=? n) && (n <? 192))%N.

Fixpoint split_chars (cur : option string) (s : string) : list string :=
  match s with
  | EmptyString => match cur with Some c => [c] | None => [] end
  | String a r =>
      if is_continuation a
      then split_chars (Some (default "" cur +:+ String a "")) r
      else match cur with
           | Some c => c :: split_chars (Some (String a "")) r
           | None => split_chars (Some (String a "")) r
           end
  end.

Definition py_iter (v : pyval) : outcome (list pyval) :=
  match v with
  | PList l => Ret l
  | PDict d => Ret (map (λ kv, PStr (fst kv)) d)
  | PStr s => Ret (map PStr (split_chars None s))
  | _ => Exc TypeError
  end.

(** *** [str(v)] and [%s] formatting

    [str] of a container is its [repr], which quotes and escapes the strings
    inside it; that rendering is not part of the model and is taken from
    the runtime ([repr_container] below). *)

Definition py_str (repr_container : pyval → string) (v : pyval) : string :=
  match v with
  | PNone => "None"
  | PBool true => "True"
  | PBool false => "False"
  | PInt n => pretty n
  | PStr s => s
  | PList _ | PDict _ => repr_container v
  end.

(** [a + '.zip'] for a decoded value [a]: concatenation for a [str], a
    [TypeError] for everything else. *)
Definition py_add_str (v : pyval) (s : string) : outcome string :=
  match v with
  | PStr t => Ret (t +:+ s)
  | _ => Exc TypeError
  end.

(** ** URLs: [mkurl] *)

Definition API_URL : string := "https://api.github.com".

Fixpoint join (sep : string) (parts : list string) : string :=
  match parts with
  | [] => ""
  | [p] => p
  | p :: ps => p +:+ sep +:+ join sep ps
  end.

(** [urlencode] of a dict of integer parameters.  The one key the script
    uses, [per_page], is left unchanged by the quoting [urlencode] does. *)
Definition urlencode (params : list (string * Z)) : string :=
  join "&" (map (λ kv, fst kv +:+ "=" +:+ pretty (snd kv)) params).

Definition mkurl (args : list string) (params : list (string * Z)) : string :=
  let parts := API_URL :: args in
  let url := join "/" parts in
  match params with
  | [] => url
  | _ :: _ => url +:+ "?" +:+ urlencode params
  end.

(** ** The pagination link: [rel_next_link]

    [re.search(r'<([^>]+)>;\srel="next"', links)].  The class [[^>]+] is
    greedy and is followed by a literal [>], so at a given [<] the group is
    the longest run of characters other than [>], and it must be non-empty
    and end at a [>].  [\s] is a whitespace character; a header is decoded
    as Latin-1, one character per byte. *)

Definition is_space (c : ascii) : bool :=
  let n := N_of_ascii c in
  (((9 <=? n) && (n <=? 13)) || ((28 <=? n) && (n <=? 32)) || (n =? 133) || (n =? 160))%N.

Definition dquote : ascii := "034"%char.
Definition rel_next : string := "rel=" +:+ String dquote ("next" +:+ String dquote "").

Fixpoint span_not_gt (s : string) : string * string :=
  match s with
  | EmptyString => ("", "")
  | String c r =>
      if Ascii.eqb c ">" then ("", s)
      else let '(g, rest) := span_not_gt r in (String c g, rest)
  end.

Definition match_here (s : string) : option string :=
  match s with
  | String "<" r =>
      let '(g, rest) := span_not_gt r in
      match g, rest with
      | String _ _, String ">" (String ";" (String c rest')) =>
          if is_space c && String.prefix rel_next rest' then Some g else None
      | _, _ => None
      end
  | _ => None
  end.

Fixpoint re_search (s : string) : option string :=
  match match_here s with
  | Some g => Some g
  | None =>
      match s with
      | EmptyString => None
      | String _ r => re_search r
      end
  end.

(** ** The environment of the script

    The file system maps a path to a regular file with its content or to
    a directory.  Paths are compared as they are written: the script does
    not normalise them and neither does the model.  Opening a path for
    writing fails on a directory and succeeds otherwise; permissions and
    missing parent directories are not modelled. *)

Inductive node : Type :=
| File (content : string)
| Dir.

Record Request : Type := mkRequest {
  req_url : string;
  req_headers : list (string * string)
}.

(** An HTTP response: the [link] header if there is one, the bytes of the
    body, and whether the body arrives whole.  When [complete] is [false]
    the connection breaks once the bytes of [body] are delivered: the read
    that would otherwise signal the end of the stream raises. *)
Record response : Type := mkResponse {
  link : option string;
  body : string;
  complete : bool
}.

(** What the script leaves behind, in order. *)
Inductive event : Type :=
| EvRequest (r : Request)                  (* urlopen(Request(url, headers)) *)
| EvStdout (s : string)                    (* text written to sys.stdout *)
| EvStderrError (e : exn)                  (* print('Error: %s' % e, file=sys.stderr) *)
| EvTraceback (e : exn)                    (* the traceback of an uncaught exception *)
| EvOpenWb (path : string)                 (* open(path, 'wb') *)
| EvWrite (path : string) (chunk : string) (* out.write(chunk) *)
| EvWriteText (path : string) (s : string) (* Path.write_text(s) *).

Record world : Type := mkWorld {
  fs : gmap string node;
  trace : list event
}.

(** The parts of the Python runtime and of the outside world that the
    script calls and that are not modelled further. *)
Record runtime : Type := mkRuntime {
  (* urlopen: the response, or the exception it raises *)
  net : Request → exn + response;
  (* json.loads(bytes.decode()): [None] is a UnicodeDecodeError or a
     JSONDecodeError, both of them ValueErrors *)
  json_loads : string → option pyval;
  (* repr of a list or a dict *)
  repr_container : pyval → string;
  (* str(Path(p).resolve()) *)
  resolve : string → string;
  (* os.environ.get('GITHUB_TOKEN') *)
  GITHUB_TOKEN : option string
}.

(** ** The monad of the script: state and exceptions *)

Definition M (A : Type) : Type := world → outcome A * world.

Definition ret {A} (a : A) : M A := λ w, (Ret a, w).
Definition raise {A} (e : exn) : M A := λ w, (Exc e, w).
Definition out_of_fuel {A} : M A := λ w, (OutOfFuel, w).
Definition lift {A} (o : outcome A) : M A := λ w, (o, w).

Definition bind {A B} (m : M A) (k : A → M B) : M B := λ w,
  match m w with
  | (Ret a, w') => k a w'
  | (Exc e, w') => (Exc e, w')
  | (OutOfFuel, w') => (OutOfFuel, w')
  end.

Declare Scope py_scope.
Delimit Scope py_scope with py.
Notation "'let!' x ':=' m 'in' k" := (bind m (λ x, k))
  (at level 10, x binder, m at level 100, k at level 200) : py_scope.
Notation "m ';;' k" := (bind m (λ _, k))
  (at level 100, k at level 200, right associativity) : py_scope.
Notation "'let?' x ':=' o 'in' k" := (obind o (λ x, k))
  (at level 10, x binder, o at level 100, k at level 200) : py_scope.
Open Scope py_scope.

Definition emit (e : event) : M unit := λ w,
  (Ret tt, {| fs := fs w; trace := trace w ++ [e] |}).

Definition newline : string := String "010" "".

(** [print(s)] and [print(s, end='', sep='', flush=True)] *)
Definition print (s : string) : M unit := emit (EvStdout (s +:+ newline)).
Definition print_noend (s : string) : M unit := emit (EvStdout s).

(** [when c: m] *)
Definition when (c : bool) (m : M unit) : M unit := if c then m else ret tt.

(** *** Files: [Path.exists], [Path.read_text], [Path.write_text], [open] *)

(** Reading in text mode translates the line endings [\r\n] and [\r] to
    [\n].  (Decoding is the identity: the file is taken to hold valid text
    in the locale's encoding.) *)
Fixpoint universal_newlines (s : string) : string :=
  match s with
  | EmptyString => ""
  | String "013" (String "010" r) => String "010" (universal_newlines r)
  | String "013" r => String "010" (universal_newlines r)
  | String c r => String c (universal_newlines r)
  end.

Definition Path (p : string) : string := p.

Definition path_exists (p : string) : M bool := λ w,
  (Ret (bool_decide (is_Some (fs w !! p))), w).

Definition read_text (p : string) : M string := λ w,
  match fs w !! p with
  | Some (File c) => (Ret (universal_newlines c), w)
  | Some Dir => (Exc OSError, w)     (* IsADirectoryError *)
  | None => (Exc OSError, w)         (* FileNotFoundError *)
  end.

Definition write_text (p : string) (s : string) : M unit := λ w,
  match fs w !! p with
  | Some Dir => (Exc OSError, w)
  | _ => (Ret tt, {| fs := <[p := File s]> (fs w); trace := trace w ++ [EvWriteText p s] |})
  end.

(** [open(p, 'wb')] creates the file or truncates it. *)
Definition open_wb (p : string) : M unit := λ w,
  match fs w !! p with
  | Some Dir => (Exc OSError, w)
  | _ => (Ret tt, {| fs := <[p := File ""]> (fs w); trace := trace w ++ [EvOpenWb p] |})
  end.

(** [out.write(chunk)] on the file opened at [p]: the bytes are appended. *)
Definition file_write (p : string) (chunk : string) : M unit := λ w,
  match fs w !! p with
  | Some (File c) =>
      (Ret tt, {| fs := <[p := File (c +:+ chunk)]> (fs w); trace := trace w ++ [EvWrite p chunk] |})
  | _ => (Exc OSError, w)
  end.

(** *** HTTP: [urlopen], [res.read], [res.getheader] *)

Definition urlopen (rt : runtime) (r : Request) : M response :=
  emit (EvRequest r);;
  match net rt r with
  | inr res => ret res
  | inl e => raise e
  end.

Fixpoint str_take (n : N) (s : string) : string :=
  match s with
  | EmptyString => ""
  | String c r => if (n =? 0)%N then "" else String c (str_take (N.pred n) r)
  end.

Fixpoint str_drop (n : N) (s : string) : string :=
  match s with
  | EmptyString => ""
  | String c r => if (n =? 0)%N then s else str_drop (N.pred n) r
  end.

(** [res.read(amt)]: the next [amt] bytes, fewer at the end of the body,
    none once it is exhausted; the second component is the response with
    what is left to read.  On a broken connection the read that runs out
    of bytes raises. *)
Definition res_read (amt : N) (res : response) : outcome (string * response) :=
  let chunk := str_take amt (body res) in
  if (N.of_nat (String.length chunk) <? amt)%N && negb (complete res)
  then Exc HTTPException
  else Ret (chunk, {| link := link res; body := str_drop amt (body res); complete := complete res |}).

(** [res.read()]: the whole body. *)
Definition res_read_all (res : response) : outcome string :=
  if complete res then Ret (body res) else Exc HTTPException.

(** [rel_next_link]: [None] when the header has no [rel="next"] entry.
    [response.getheader('link') or ''] is the header, or the empty string
    when it is absent. *)
Definition rel_next_link (res : response) : option string :=
  let links := default "" (link res) in
  re_search links.

(** ** The Paged Fetcher: [get_paged]

    A generator.  Its state is where it is suspended: before the first
    request, at the [yield] (holding the response whose link header gives
    the next URL), or finished.  [get_paged_next] is one [next()] on it:
    [Some page] for a yielded page, [None] for [StopIteration]. *)

Inductive paged_gen : Type :=
| GenStart (url : string)
| GenYielded (res : response)
| GenDone.

(** [get_paged(url, headers)]: calling the generator function runs none of
    its body. *)
Definition get_paged (url : string) : paged_gen := GenStart url.

Definition fetch_page (rt : runtime) (headers : list (string * string)) (url : string)
  : M (option pyval * paged_gen) :=
  let! res := urlopen rt {| req_url := url; req_headers := headers |} in
  let! text := lift (res_read_all res) in
  match json_loads rt text with
  | Some page => ret (Some page, GenYielded res)
  | None => raise ValueError
  end.

Definition get_paged_next (rt : runtime) (headers : list (string * string)) (g : paged_gen)
  : M (option pyval * paged_gen) :=
  match g with
  | GenStart url => fetch_page rt headers url
  | GenYielded res =>
      let url := rel_next_link res in
      if opt_truthy url then fetch_page rt headers (default "" url)
      else ret (None, GenDone)
  | GenDone => ret (None, GenDone)
  end.

(** [for result in get_paged(url, headers): body].  The body answers
    [Some v] when it executes [return v] and [None] when it runs to its
    end; the loop answers [None] when the generator is exhausted.  The
    generator is resumed only after the body has run, so a [return] in
    the body leaves the remaining pages unfetched. *)
Fixpoint for_paged {A} (fuel : nat) (rt : runtime) (headers : list (string * string))
    (g : paged_gen) (body : pyval → outcome (option A)) : M (option A) :=
  match fuel with
  | O => out_of_fuel
  | S fuel' =>
      let! nx := get_paged_next rt headers g in
      match nx with
      | (None, _) => ret None
      | (Some result, g') =>
          let! r := lift (body result) in
          match r with
          | Some v => ret (Some v)
          | None => for_paged fuel' rt headers g' body
          end
      end
  end.

(** [for x in items: body] over the elements of a list. *)
Fixpoint for_each {A} (items : list pyval) (body : pyval → outcome (option A))
  : outcome (option A) :=
  match items with
  | [] => Ret None
  | x :: rest =>
      let? r := body x in
      match r with
      | Some v => Ret (Some v)
      | None => for_each rest body
      end
  end.

(** ** The Artifact Selector *)

(** [name is None or artifact['name'] == name] *)
Definition artifact_selected (name : option string) (artifact : pyval) : outcome bool :=
  match name with
  | None => Ret true
  | Some n =>
      let? v := py_getitem artifact "name" in
      Ret (py_eq_str v n)
  end.

(** The body of the outer loop of both artifact selectors. *)
Definition scan_artifacts (name : option string) (result : pyval) : outcome (option pyval) :=
  let? arts := py_get result "artifacts" (PList []) in
  let? items := py_iter arts in
  for_each items (λ artifact,
    let? sel := artifact_selected name artifact in
    Ret (if sel then Some artifact else None)).

Definition find_latest_repo_artifact (fuel : nat) (rt : runtime)
    (repo : string) (name : option string) (headers : list (string * string)) : M pyval :=
  let url := mkurl ["repos"; repo; "actions"; "artifacts"] [("per_page", 50)] in
  let! r := for_paged fuel rt headers (get_paged url) (scan_artifacts name) in
  ret (default PNone r).

Definition find_workflow_run_artifact (fuel : nat) (rt : runtime)
    (repo : string) (run_id : pyval) (name : option string)
    (headers : list (string * string)) : M pyval :=
  let url := mkurl ["repos"; repo; "actions"; "runs"; py_str (repr_container rt) run_id; "artifacts"]
                   [("per_page", 50)] in
  let! r := for_paged fuel rt headers (get_paged url) (scan_artifacts name) in
  ret (default PNone r).

(** ** The Run Selector *)

(** The condition of the [continue]:
    [run['conclusion'] != 'success' or (name and run['name'] != name)
     or (branch and run['head_branch'] != branch)],
    evaluated left to right with the short circuits of [or] and [and]. *)
Definition run_skipped (name branch : option string) (run : pyval) : outcome bool :=
  let? c := py_getitem run "conclusion" in
  if py_ne_str c "success" then Ret true else
  let? by_name :=
    (if opt_truthy name
     then let? n := py_getitem run "name" in Ret (py_ne_str n (default "" name))
     else Ret false) in
  if by_name then Ret true else
  if opt_truthy branch
  then let? b := py_getitem run "head_branch" in Ret (py_ne_str b (default "" branch))
  else Ret false.

Definition scan_runs (name branch : option string) (result : pyval) : outcome (option pyval) :=
  let? runs := py_get result "workflow_runs" (PList []) in
  let? items := py_iter runs in
  for_each items (λ run,
    let? skip := run_skipped name branch run in
    Ret (if skip then None else Some run)).

Definition find_latest_successful_workflow_run (fuel : nat) (rt : runtime)
    (repo : string) (name branch : option string) (headers : list (string * string)) : M pyval :=
  let url := mkurl ["repos"; repo; "actions"; "runs"] [("per_page", 50)] in
  let! r := for_paged fuel rt headers (get_paged url) (scan_runs name branch) in
  ret (default PNone r).

(** ** The Download Engine: [download_file] *)

(** The [while True] loop.  Each turn reads a chunk of at most 8 KiB,
    prints the progress marker when [verbose], leaves the loop on an empty
    chunk and writes the chunk otherwise.  Every turn that goes on
    consumes at least one byte, so the loop is given one turn per byte of
    the body and one more (see [download_file]). *)
Fixpoint download_loop (fuel : nat) (res : response) (filename : string) (verbose : bool)
  : M unit :=
  match fuel with
  | O => out_of_fuel
  | S fuel' =>
      let! rd := lift (res_read (1024 * 8) res) in
      let chunk := fst rd in
      when verbose (print_noend ".");;
      if negb (str_truthy chunk) then ret tt
      else
        file_write filename chunk;;
        download_loop fuel' (snd rd) filename verbose
  end.

(** [Request(url, ...)] takes a [str]; with any other value it, or
    [urlopen] after it, raises before a request is made. *)
Definition download_file (rt : runtime) (url : pyval) (filename : string)
    (headers : list (string * string)) (verbose : bool) : M pyval :=
  match url with
  | PStr u =>
      let! res := urlopen rt {| req_url := u; req_headers := headers |} in
      open_wb filename;;
      download_loop (S (String.length (body res))) res filename verbose;;
      when verbose (print "");;
      ret PNone
  | _ => raise ValueError
  end.

(** ** The pipeline: [main] *)

Record Args : Type := mkArgs {
  arg_repository : string;
  arg_token : option string;
  arg_artifact : option string;
  arg_filename : option string;
  arg_workflow : option string;
  arg_branch : option string;
  arg_cache_file : option string;
  arg_traceback : bool;
  arg_verbose : bool
}.

Definition make_headers (token : string) : list (string * string) :=
  [("Accept", "application/vnd.github.v3+json"); ("Authorization", "token " +:+ token)].

(** Lines 53 to 64: the run, when a workflow is asked for, and the
    artifact. *)
Definition select_artifact (fuel : nat) (rt : runtime) (args : Args)
    (headers : list (string * string)) : M pyval :=
  let str := py_str (repr_container rt) in
  if opt_truthy (arg_workflow args) then
    let! run := find_latest_successful_workflow_run fuel rt (arg_repository args)
                  (arg_workflow args) (arg_branch args) headers in
    if negb (py_truthy run) then raise (RuntimeError "No successful workflow run found") else
    when (arg_verbose args) (
      let! ev := lift (py_getitem run "event") in
      let! hb := lift (py_getitem run "head_branch") in
      let! nm := lift (py_getitem run "name") in
      let! ca := lift (py_getitem run "created_at") in
      print ("Successful run found: " +:+ str ev +:+ " on " +:+ str hb +:+ ", " +:+ str nm
             +:+ " started on: " +:+ str ca));;
    let! run_id := lift (py_getitem run "id") in
    find_workflow_run_artifact fuel rt (arg_repository args) run_id (arg_artifact args) headers
  else
    find_latest_repo_artifact fuel rt (arg_repository args) (arg_artifact args) headers.

(** Line 73, the Cache Guard's test:
    [cache_file and cache_file.exists()
     and cache_file.read_text() == str(artifact['id'])]. *)
Definition should_skip (rt : runtime) (cache_file : option string) (artifact : pyval) : M bool :=
  match cache_file with
  | None => ret false
  | Some p =>
      let! ex := path_exists p in
      if negb ex then ret false else
      let! text := read_text p in
      let! id := lift (py_getitem artifact "id") in
      ret (String.eqb text (py_str (repr_container rt) id))
  end.

(** Lines 85 and 86, the Cache Guard's record. *)
Definition record (rt : runtime) (cache_file : option string) (artifact : pyval) : M unit :=
  match cache_file with
  | None => ret tt
  | Some p =>
      let! id := lift (py_getitem artifact "id") in
      write_text p (py_str (repr_container rt) id)
  end.

(** Line 51: [Path(args.cache_file) if args.cache_file else None]. *)
Definition cache_path (args : Args) : option string :=
  if opt_truthy (arg_cache_file args) then Some (Path (default "" (arg_cache_file args)))
  else None.

(** Line 82: [args.filename or (artifact.get('name', 'artifact') + '.zip')]. *)
Definition target_filename (args : Args) (artifact : pyval) : outcome string :=
  if opt_truthy (arg_filename args) then Ret (default "" (arg_filename args))
  else
    let? nm := py_get artifact "name" (PStr "artifact") in
    py_add_str nm ".zip".

(** Lines 78 to 91: what [main] does once the cache test has failed. *)
Definition fetch_and_record (rt : runtime) (args : Args) (headers : list (string * string))
    (cache_file : option string) (artifact : pyval) : M unit :=
  let str := py_str (repr_container rt) in
  let! download_url := lift (py_getitem artifact "archive_download_url") in
  when (arg_verbose args) (print ("Downloading " +:+ str download_url));;
  let! filename := lift (target_filename args artifact) in
  download_file rt download_url filename headers (arg_verbose args);;
  record rt cache_file artifact;;
  when (arg_verbose args) (print ("File downloaded to " +:+ filename));;
  print (resolve rt filename).

Definition main (fuel : nat) (rt : runtime) (args : Args) : M unit :=
  let str := py_str (repr_container rt) in
  let token := py_or (arg_token args) (GITHUB_TOKEN rt) in
  if negb (opt_truthy token)
  then raise (RuntimeError "Please specify a GitHub personal access token") else
  let headers := make_headers (default "" token) in
  let cache_file := cache_path args in
  let! artifact := select_artifact fuel rt args headers in
  if negb (py_truthy artifact) then raise (RuntimeError "Artifact not found!") else
  when (arg_verbose args) (
    let! nm := lift (py_getitem artifact "name") in
    let! sz := lift (py_getitem artifact "size_in_bytes") in
    let! ca := lift (py_getitem artifact "created_at") in
    print ("Artifact found: " +:+ str nm +:+ " (" +:+ str sz +:+ " bytes), created on: "
           +:+ str ca));;
  let! skip := should_skip rt cache_file artifact in
  if skip then
    when (arg_verbose args) (print "Artifact already downladed, exiting")
  else
    fetch_and_record rt args headers cache_file artifact.

(** The [__main__] block: the exit status of the process, [None] when the
    bound on pagination was reached.  An exception that is raised again
    leaves through the interpreter, which prints the traceback and exits
    with status 1 as well. *)
Definition script (fuel : nat) (rt : runtime) (args : Args) (w : world) : option Z * world :=
  match main fuel rt args w with
  | (Ret _, w') => (Some 0, w')
  | (Exc e, w') =>
      if arg_traceback args
      then (Some 1, {| fs := fs w'; trace := trace w' ++ [EvTraceback e] |})
      else (Some 1, {| fs := fs w'; trace := trace w' ++ [EvStderrError e] |})
  | (OutOfFuel, w') => (None, w')
  end.

(** * Properties *)

Close Scope string_scope.

(** ** The link header of the GitHub API *)

Example re_search_github :
  re_search ("<https://api.github.com/r?page=1>; rel=" +:+ String dquote ("prev" +:+ String dquote
             (", <https://api.github.com/r?page=3>; rel=" +:+ String dquote ("next" +:+ String dquote ""))))
  = Some "https://api.github.com/r?page=3".
Proof. reflexivity. Qed.

(** The entry must read [<url>], a semicolon, one whitespace character and
    [rel="next"]; the first entry that does gives the URL. *)
Example re_search_cases :
  re_search ("<u>;" +:+ rel_next) = None
  ∧ re_search ("<>; " +:+ rel_next) = None
  ∧ re_search ("<a>; rel=last, <b>; " +:+ rel_next) = Some "b"
  ∧ re_search ("x<a>;" +:+ String "009" rel_next +:+ ">") = Some "a"
  ∧ re_search ("<a<b>;" +:+ String "028" rel_next) = Some "a<b"
  ∧ re_search ("<a>;" +:+ String "027" rel_next) = None
  ∧ re_search "" = None.
Proof. repeat split; reflexivity. Qed.

(** ** Running the monad *)

Definition add_events (w : world) (evs : list event) : world :=
  {| fs := fs w; trace := trace w ++ evs |}.

Lemma add_events_nil w : add_events w [] = w.
Proof. destruct w as [f t]. unfold add_events. simpl. by rewrite app_nil_r. Qed.

Lemma add_events_app w evs1 evs2 :
  add_events (add_events w evs1) evs2 = add_events w (evs1 ++ evs2).
Proof. unfold add_events. simpl. by rewrite app_assoc. Qed.

(** ** The pages a generator yields

    [gen_target g] is the URL the next [next()] on [g] requests, if it
    requests one; [gen_yields rt h g ups g'] says that from state [g] the
    generator yields the pages of [ups], each with the URL it came from,
    and is then in state [g']. *)

Definition gen_target (g : paged_gen) : option string :=
  match g with
  | GenStart url => Some url
  | GenYielded res =>
      if opt_truthy (rel_next_link res) then rel_next_link res else None
  | GenDone => None
  end.

Definition gen_exhausted (g : paged_gen) : Prop := gen_target g = None.

Inductive gen_yields (rt : runtime) (h : list (string * string))
  : paged_gen → list (string * pyval) → paged_gen → Prop :=
| gen_yields_nil g : gen_yields rt h g [] g
| gen_yields_cons g url res page ups g' :
    gen_target g = Some url →
    net rt {| req_url := url; req_headers := h |} = inr res →
    complete res = true →
    json_loads rt (body res) = Some page →
    gen_yields rt h (GenYielded res) ups g' →
    gen_yields rt h g ((url, page) :: ups) g'.

Definition requests (h : list (string * string)) (ups : list (string * pyval)) : list event :=
  map (λ up, EvRequest {| req_url := fst up; req_headers := h |}) ups.

(** The scan of a loop body over a list of pages: its outcome and the
    number of pages it looked at. *)
Fixpoint scan_pages {A} (body : pyval → outcome (option A)) (pages : list pyval)
  : outcome (option A) * nat :=
  match pages with
  | [] => (Ret None, O)
  | p :: ps =>
      match body p with
      | Ret None => let '(r, k) := scan_pages body ps in (r, S k)
      | o => (o, 1%nat)
      end
  end.

Lemma get_paged_next_target rt h g url :
  gen_target g = Some url → get_paged_next rt h g = fetch_page rt h url.
Proof.
  destruct g as [u|res|]; simpl; [by intros [= ->]| |done].
  destruct (opt_truthy (rel_next_link res)); [|done].
  by intros ->.
Qed.

Lemma get_paged_next_exhausted rt h g w :
  gen_exhausted g → get_paged_next rt h g w = (Ret (None, GenDone), w).
Proof.
  unfold gen_exhausted. destruct g as [u|res|]; simpl; [done| |reflexivity].
  destruct (rel_next_link res) as [u|]; simpl; [|reflexivity].
  destruct (str_truthy u); [done|reflexivity].
Qed.

Lemma fetch_page_ok rt h url res page w :
  net rt {| req_url := url; req_headers := h |} = inr res →
  complete res = true →
  json_loads rt (body res) = Some page →
  fetch_page rt h url w
  = (Ret (Some page, GenYielded res),
     add_events w [EvRequest {| req_url := url; req_headers := h |}]).
Proof.
  intros Hnet Hc Hj. unfold fetch_page, urlopen, bind, lift, res_read_all. simpl.
  rewrite Hnet. simpl. rewrite Hc. simpl. by rewrite Hj.
Qed.

(** The loop over the generator is the scan of the pages it yields, and it
    has requested exactly the pages the scan looked at. *)
Lemma for_paged_scan {A} rt h (body : pyval → outcome (option A)) g ups g' :
  gen_yields rt h g ups g' →
  ∀ fuel w,
    (fst (scan_pages body (map snd ups)) ≠ Ret None ∨ gen_exhausted g') →
    (length ups < fuel)%nat →
    for_paged fuel rt h g body w
    = (fst (scan_pages body (map snd ups)),
       add_events w (requests h (take (snd (scan_pages body (map snd ups))) ups))).
Proof.
  induction 1 as [g|g url res page ups g' Ht Hnet Hc Hj Hy IH]; intros fuel w Hend Hfuel.
  - simpl in *. destruct Hend as [?|Hex]; [done|].
    destruct fuel as [|fuel]; [lia|]. simpl. unfold bind.
    rewrite get_paged_next_exhausted by done. by rewrite add_events_nil.
  - destruct fuel as [|fuel]; [simpl in Hfuel; lia|].
    simpl in *. unfold bind at 1.
    rewrite (get_paged_next_target _ _ _ _ Ht), (fetch_page_ok _ _ _ _ _ _ Hnet Hc Hj).
    unfold bind, lift.
    destruct (body page) as [[v|]| |] eqn:Hb; simpl; try done.
    rewrite IH; [|by destruct (scan_pages body (map snd ups))|lia].
    destruct (scan_pages body (map snd ups)) as [r k]. simpl.
    by rewrite add_events_app.
Qed.

(** ** Scanning records

    Both selectors run the same two nested loops; [select_in] is their
    common shape, with the test on a record left open. *)

Definition select_body (sel : pyval → outcome bool) (x : pyval) : outcome (option pyval) :=
  let? s := sel x in Ret (if s then Some x else None).

Definition select_in (key : string) (sel : pyval → outcome bool) (result : pyval)
  : outcome (option pyval) :=
  let? arts := py_get result key (PList []) in
  let? items := py_iter arts in
  for_each items (select_body sel).

Lemma for_each_ext {A} (f g : pyval → outcome (option A)) items :
  (∀ x, f x = g x) → for_each items f = for_each items g.
Proof. intros Hfg. induction items as [|x l IH]; simpl; [done|]. by rewrite Hfg, IH. Qed.

Lemma scan_artifacts_select name result :
  scan_artifacts name result = select_in "artifacts" (artifact_selected name) result.
Proof. reflexivity. Qed.

Lemma scan_runs_select name branch result :
  scan_runs name branch result
  = select_in "workflow_runs"
      (λ run, let? skip := run_skipped name branch run in Ret (negb skip)) result.
Proof.
  unfold scan_runs, select_in.
  destruct (py_get result "workflow_runs" (PList [])) as [arts| |]; simpl; try done.
  destruct (py_iter arts) as [items| |]; simpl; try done.
  apply for_each_ext. intros x. unfold select_body.
  by destruct (run_skipped name branch x) as [[]| |].
Qed.

Lemma for_each_app {A} (body : pyval → outcome (option A)) l1 l2 :
  for_each (l1 ++ l2) body
  = match for_each l1 body with
    | Ret None => for_each l2 body
    | o => o
    end.
Proof.
  induction l1 as [|x l1 IH]; simpl; [done|].
  destruct (body x) as [[v|]| |]; simpl; try done.
Qed.

(** The records of a page: the list under [key], or no record when the
    page has no such key.  A page that is not an object, or that holds
    something other than a list there, is not a page of records. *)
Definition page_records (key : string) (page : pyval) : option (list pyval) :=
  match page with
  | PDict d =>
      match dict_lookup d key with
      | None => Some []
      | Some (PList l) => Some l
      | Some _ => None
      end
  | _ => None
  end.

Lemma select_in_records key sel page l :
  page_records key page = Some l →
  select_in key sel page = for_each l (select_body sel).
Proof.
  unfold page_records, select_in. destruct page as [| | | | |d]; try done. simpl.
  destruct (dict_lookup d key) as [[| | | |l'|]|]; simpl; try done; by intros [= <-].
Qed.

(** The number of pages a scan looks at: up to and including the first
    page on which the loop body returns or raises. *)
Fixpoint pages_needed {A} (body : pyval → outcome (option A)) (ls : list (list pyval)) : nat :=
  match ls with
  | [] => O
  | l :: ls' =>
      match for_each l body with
      | Ret None => S (pages_needed body ls')
      | _ => 1%nat
      end
  end.

Lemma scan_pages_records key sel pages ls :
  Forall2 (λ page l, page_records key page = Some l) pages ls →
  scan_pages (select_in key sel) pages
  = (for_each (concat ls) (select_body sel), pages_needed (select_body sel) ls).
Proof.
  induction 1 as [|page l pages ls Hp _ IH]; simpl; [done|].
  rewrite (select_in_records _ _ _ _ Hp), for_each_app.
  destruct (for_each l (select_body sel)) as [[v|]| |]; try done.
  by rewrite IH.
Qed.

(** With a test that neither raises nor diverges on the records, the scan
    is [find]: the first record that passes the test. *)
Lemma for_each_find sel (p : pyval → bool) l :
  Forall (λ x, sel x = Ret (p x)) l →
  for_each l (select_body sel) = Ret (find p l).
Proof.
  induction 1 as [|x l Hx _ IH]; simpl; [done|].
  unfold select_body at 1. rewrite Hx. simpl. by destruct (p x).
Qed.

(** The number of pages up to and including the first one that holds a
    record passing [p]; all of them when none does. *)
Fixpoint pages_scanned (p : pyval → bool) (ls : list (list pyval)) : nat :=
  match ls with
  | [] => O
  | l :: ls' => if existsb p l then 1%nat else S (pages_scanned p ls')
  end.

Lemma find_existsb {A} (p : A → bool) l :
  existsb p l = match find p l with Some _ => true | None => false end.
Proof. induction l as [|x l IH]; simpl; [done|]. by destruct (p x). Qed.

Lemma pages_needed_scanned sel (p : pyval → bool) ls :
  Forall (λ x, sel x = Ret (p x)) (concat ls) →
  pages_needed (select_body sel) ls = pages_scanned p ls.
Proof.
  induction ls as [|l ls IH]; simpl; [done|].
  rewrite Forall_app. intros [Hl Hls].
  rewrite (for_each_find _ _ _ Hl), find_existsb.
  destruct (find p l); [done|]. by rewrite IH.
Qed.

Lemma for_paged_ext {A} fuel rt h g (f f' : pyval → outcome (option A)) w :
  (∀ x, f x = f' x) → for_paged fuel rt h g f w = for_paged fuel rt h g f' w.
Proof.
  intros Hff. revert g w. induction fuel as [|fuel IH]; intros g w; simpl; [done|].
  unfold bind at 1 3. destruct (get_paged_next rt h g w) as [[[[page|] g1]| |] w1]; try done.
  unfold bind, lift. rewrite Hff. destruct (f' page) as [[x|]| |]; try done.
Qed.

(** What a loop over the generator returns was returned by its body on
    some page; what a loop over a list returns was returned on some item. *)
Lemma for_paged_ret {A} fuel rt h g (body : pyval → outcome (option A)) w v w' :
  for_paged fuel rt h g body w = (Ret (Some v), w') →
  ∃ page, body page = Ret (Some v).
Proof.
  revert g w. induction fuel as [|fuel IH]; intros g w; simpl; [done|].
  unfold bind at 1. destruct (get_paged_next rt h g w) as [[[[page|] g1]| |] w1]; try done.
  unfold bind, lift. destruct (body page) as [[x|]| |] eqn:Hb; try discriminate.
  - unfold ret. intros [= -> _]. exists page. exact Hb.
  - apply IH.
Qed.

Lemma for_each_ret {A} (body : pyval → outcome (option A)) items v :
  for_each items body = Ret (Some v) →
  ∃ x, In x items ∧ body x = Ret (Some v).
Proof.
  induction items as [|x l IH]; simpl; [done|].
  destruct (body x) as [[y|]| |] eqn:Hb; simpl; try done.
  - intros [= ->]. exists x. split; [by left|done].
  - intros Hl. destruct (IH Hl) as (z & Hz & Hbz). exists z. split; [by right|done].
Qed.

Lemma select_in_ret key sel page v :
  select_in key sel page = Ret (Some v) → sel v = Ret true.
Proof.
  unfold select_in.
  destruct (py_get page key (PList [])) as [arts| |]; simpl; try done.
  destruct (py_iter arts) as [items| |]; simpl; try done.
  intros (x & _ & Hx)%for_each_ret. unfold select_body in Hx.
  destruct (sel x) as [[]| |] eqn:Hs; simpl in Hx; try done. by injection Hx as <-.
Qed.

(** ** Records and their fields *)

Definition has_field (r : pyval) (key : string) : bool :=
  match py_getitem r key with Ret _ => true | _ => false end.

(** [r.key == s], false when the record has no such field. *)
Definition field_eq (r : pyval) (key : string) (s : string) : bool :=
  match py_getitem r key with Ret v => py_eq_str v s | _ => false end.

Lemma field_eq_getitem r key s :
  field_eq r key s = true ↔ py_getitem r key = Ret (PStr s).
Proof.
  unfold field_eq. destruct (py_getitem r key) as [v| |]; [|done..].
  destruct v; simpl; try done.
  rewrite String.eqb_eq. split; [by intros ->|by intros [= ->]].
Qed.

(** A workflow-run record: an object with the three fields the selector
    reads. *)
Definition run_record (r : pyval) : bool :=
  has_field r "conclusion" && has_field r "name" && has_field r "head_branch".

(** An artifact record: an object with a name. *)
Definition artifact_record (r : pyval) : bool := has_field r "name".

(** ** The Run Selector (C1) *)

(** The test of the claim, word for word: a filter is unset when it is
    [None]. *)
Definition spec_run_matches (workflow_name branch : option string) (run : pyval) : bool :=
  field_eq run "conclusion" "success"
  && match workflow_name with None => true | Some n => field_eq run "name" n end
  && match branch with None => true | Some b => field_eq run "head_branch" b end.

(** The test the selector applies: a filter counts when it is a non-empty
    string. *)
Definition run_matches (workflow_name branch : option string) (run : pyval) : bool :=
  field_eq run "conclusion" "success"
  && (negb (opt_truthy workflow_name) || field_eq run "name" (default "" workflow_name))
  && (negb (opt_truthy branch) || field_eq run "head_branch" (default "" branch)).

Lemma run_skipped_record name branch run :
  run_record run = true →
  run_skipped name branch run = Ret (negb (run_matches name branch run)).
Proof.
  unfold run_record, has_field, run_skipped, run_matches, field_eq, py_ne_str.
  destruct (py_getitem run "conclusion") as [c| |]; simpl; [|done..].
  destruct (py_getitem run "name") as [n| |]; simpl; [|done..].
  destruct (py_getitem run "head_branch") as [b| |]; simpl; [|done..].
  intros _.
  destruct (py_eq_str c "success"); simpl; [|done].
  destruct (opt_truthy name); simpl;
    [destruct (py_eq_str n (default "" name)); simpl; [|done]|];
    (destruct (opt_truthy branch); simpl; [|done];
     by destruct (py_eq_str b (default "" branch))).
Qed.

Lemma run_skipped_success name branch run :
  run_skipped name branch run = Ret false →
  py_getitem run "conclusion" = Ret (PStr "success").
Proof.
  unfold run_skipped. destruct (py_getitem run "conclusion") as [c| |] eqn:Hc; simpl; [|done..].
  intros H. unfold py_ne_str in H. destruct (py_eq_str c "success") eqn:E; [|done].
  destruct c; simpl in E; try done. apply String.eqb_eq in E. by subst.
Qed.

Definition runs_url (repo : string) : string :=
  mkurl ["repos"; repo; "actions"; "runs"] [("per_page", 50)].

(** A selector whose test is the boolean [p] on every record returns the
    first record of the pages, taken in order, that passes [p], and has
    requested only the pages up to that record's. *)
Lemma selector_first_match rt h url key sel (p : pyval → bool) ups g' ls fuel w :
  gen_yields rt h (GenStart url) ups g' →
  Forall2 (λ up l, page_records key (snd up) = Some l) ups ls →
  Forall (λ x, sel x = Ret (p x)) (concat ls) →
  existsb p (concat ls) = true ∨ gen_exhausted g' →
  (length ups < fuel)%nat →
  for_paged fuel rt h (GenStart url) (select_in key sel) w
  = (Ret (find p (concat ls)),
     add_events w (requests h (take (pages_scanned p ls) ups))).
Proof.
  intros Hy Hrec Hsel Hend Hfuel.
  assert (scan_pages (select_in key sel) (map snd ups)
          = (Ret (find p (concat ls)), pages_scanned p ls)) as Hscan.
  { rewrite (scan_pages_records key sel (map snd ups) ls).
    - by rewrite (for_each_find _ _ _ Hsel), (pages_needed_scanned _ _ _ Hsel).
    - by apply Forall2_fmap_l. }
  rewrite (for_paged_scan _ _ _ _ _ _ Hy); [by rewrite Hscan| |done].
  rewrite Hscan. simpl. destruct Hend as [Hex|Hex]; [left|by right].
  rewrite find_existsb in Hex. by destruct (find p (concat ls)).
Qed.

(** ** A small world to run the script in

    One repository, [acme/widget].  Its runs come on two pages, its
    artifacts on one; artifact 7 can be downloaded, the download of
    artifact 8 breaks off.  [json_loads] decodes the three bodies the
    server sends and nothing else. *)
Module Toy.

Definition record_of (fields : list (string * string)) : list (string * pyval) :=
  map (λ kv, (fst kv, PStr (snd kv))) fields.

Definition run (id : Z) (name conclusion head_branch : string) : pyval :=
  PDict (("id", PInt id) ::
         record_of [("name", name); ("conclusion", conclusion); ("head_branch", head_branch);
                    ("event", "push"); ("created_at", "2021-03-01T10:00:00Z")]).

Definition run_a : pyval := run 41 "CI" "failure" "main".
Definition run_b : pyval := run 40 "Lint" "success" "main".
Definition run_c : pyval := run 39 "CI" "success" "dev".
Definition run_d : pyval := run 38 "CI" "success" "main".

Definition artifact (id : Z) (name : string) : pyval :=
  PDict [("id", PInt id); ("name", PStr name); ("size_in_bytes", PInt 3);
         ("created_at", PStr "2021-03-01T10:05:00Z");
         ("archive_download_url", PStr ("https://api.github.com/zip/" +:+ pretty id))].

Definition docs : pyval := artifact 7 "docs".
Definition build : pyval := artifact 8 "build".

Definition runs_page_1 : pyval := PDict [("total_count", PInt 4); ("workflow_runs", PList [run_a; run_b])].
Definition runs_page_2 : pyval := PDict [("total_count", PInt 4); ("workflow_runs", PList [run_c; run_d])].
Definition artifacts_page : pyval := PDict [("total_count", PInt 2); ("artifacts", PList [docs; build])].

Definition runs_url_2 : string := "https://api.github.com/repos/acme/widget/actions/runs?per_page=50&page=2".
Definition next_link : string :=
  "<" +:+ runs_url_2 +:+ ">; " +:+ rel_next +:+ ", <" +:+ runs_url_2 +:+ ">; rel=last".

Definition serve (url : string) : exn + response :=
  if String.eqb url "https://api.github.com/repos/acme/widget/actions/runs?per_page=50"
  then inr {| link := Some next_link; body := "runs 1"; complete := true |}
  else if String.eqb url runs_url_2
  then inr {| link := None; body := "runs 2"; complete := true |}
  else if String.eqb url "https://api.github.com/repos/acme/widget/actions/artifacts?per_page=50"
  then inr {| link := None; body := "artifacts"; complete := true |}
  else if String.eqb url "https://api.github.com/repos/acme/widget/actions/runs/38/artifacts?per_page=50"
  then inr {| link := None; body := "artifacts"; complete := true |}
  else if String.eqb url "https://api.github.com/zip/7"
  then inr {| link := None; body := "zip"; complete := true |}
  else if String.eqb url "https://api.github.com/zip/8"
  then inr {| link := None; body := "zi"; complete := false |}
  else inl URLError.

Definition decode (text : string) : option pyval :=
  if String.eqb text "runs 1" then Some runs_page_1
  else if String.eqb text "runs 2" then Some runs_page_2
  else if String.eqb text "artifacts" then Some artifacts_page
  else None.

Definition rt : runtime :=
  {| net := λ r, serve (req_url r);
     json_loads := decode;
     repr_container := λ _, "{...}";
     resolve := λ p, "/home/ci/" +:+ p;
     GITHUB_TOKEN := Some "s3cret" |}.

Definition hdrs : list (string * string) := make_headers "s3cret".

Definition w0 : world := {| fs := ∅; trace := [] |}.

Definition args : Args :=
  {| arg_repository := "acme/widget"; arg_token := None; arg_artifact := None;
     arg_filename := None; arg_workflow := None; arg_branch := None;
     arg_cache_file := None; arg_traceback := false; arg_verbose := false |}.

Definition runs_pages : list (string * pyval) :=
  [(runs_url "acme/widget", runs_page_1); (runs_url_2, runs_page_2)].

Lemma runs_yield :
  gen_yields rt hdrs (GenStart (runs_url "acme/widget")) runs_pages
    (GenYielded {| link := None; body := "runs 2"; complete := true |}).
Proof.
  eapply gen_yields_cons; [reflexivity..|].
  eapply gen_yields_cons; [reflexivity..|].
  apply gen_yields_nil.
Defined.

End Toy.

Example toy_run_selected :
  find_latest_successful_workflow_run 3 Toy.rt "acme/widget" (Some "CI") (Some "main") Toy.hdrs Toy.w0
  = (Ret Toy.run_d, add_events Toy.w0 (requests Toy.hdrs Toy.runs_pages)).
Proof. reflexivity. Qed.

Lemma run_selector_test name branch l :
  Forall (λ r, run_record r = true) l →
  Forall (λ r, (let? skip := run_skipped name branch r in Ret (negb skip))
               = Ret (run_matches name branch r)) l.
Proof.
  intros Hl. eapply Forall_impl; [exact Hl|].
  intros r Hr. simpl in Hr. rewrite (run_skipped_record _ _ _ Hr). simpl.
  by rewrite negb_involutive.
Qed.

(** C1, as the claim words it, fails.  With the branch filter set to the
    empty string the selector returns the successful [CI] run on [dev],
    although its branch is not the empty string: the claim's test rejects
    every run of the listing, so the claim has the selector answer
    NotFound. *)
Lemma run_selector_empty_branch_counterexample :
  fst (find_latest_successful_workflow_run 3 Toy.rt "acme/widget" (Some "CI") (Some "")
         Toy.hdrs Toy.w0) = Ret Toy.run_c
  ∧ spec_run_matches (Some "CI") (Some "") Toy.run_c = false
  ∧ find (spec_run_matches (Some "CI") (Some ""))
         [Toy.run_a; Toy.run_b; Toy.run_c; Toy.run_d] = None.
Proof. repeat split; reflexivity. Qed.

(** C1, amended: a filter is unset when it is [None] _or the empty
    string_.  Whatever the server sends, a run the Run Selector returns
    has conclusion [success].  When the listing comes as pages of
    workflow-run records, the selector returns the first record, in page
    order, with [conclusion == success], the workflow name when that filter
    is set, and the branch when that filter is set; it has then requested
    the pages up to that record's and no further one; and when the pages
    are exhausted without a match it returns [None], which is no error. *)
Theorem run_selector_first_match fuel rt repo name branch h w :
  (∀ r w',
      find_latest_successful_workflow_run fuel rt repo name branch h w = (Ret r, w') →
      r ≠ PNone →
      py_getitem r "conclusion" = Ret (PStr "success"))
  ∧ (∀ ups g' ls,
      gen_yields rt h (GenStart (runs_url repo)) ups g' →
      Forall2 (λ up l, page_records "workflow_runs" (snd up) = Some l) ups ls →
      Forall (λ r, run_record r = true) (concat ls) →
      existsb (run_matches name branch) (concat ls) = true ∨ gen_exhausted g' →
      (length ups < fuel)%nat →
      find_latest_successful_workflow_run fuel rt repo name branch h w
      = (Ret (default PNone (find (run_matches name branch) (concat ls))),
         add_events w (requests h (take (pages_scanned (run_matches name branch) ls) ups)))
      ∧ (∀ r, find (run_matches name branch) (concat ls) = Some r →
              run_matches name branch r = true ∧ r ≠ PNone)
      ∧ (existsb (run_matches name branch) (concat ls) = false →
         fst (find_latest_successful_workflow_run fuel rt repo name branch h w) = Ret PNone)).
Proof.
  split.
  - intros r w'. unfold find_latest_successful_workflow_run, bind.
    destruct (for_paged _ _ _ _ _ _) as [[[v|]| |] w1] eqn:Hfor; unfold ret; simpl;
      intros [= <- _] Hnone; [|done].
    apply for_paged_ret in Hfor as [page Hpage].
    rewrite scan_runs_select in Hpage. apply select_in_ret in Hpage.
    destruct (run_skipped name branch v) as [[]| |] eqn:Hs; try done.
    by apply run_skipped_success in Hs.
  - intros ups g' ls Hy Hrec Hwf Hend Hfuel.
    assert (find_latest_successful_workflow_run fuel rt repo name branch h w
            = (Ret (default PNone (find (run_matches name branch) (concat ls))),
               add_events w (requests h (take (pages_scanned (run_matches name branch) ls) ups))))
      as Hrun.
    { unfold find_latest_successful_workflow_run, bind.
      rewrite (for_paged_ext _ _ _ _ _ _ _ (scan_runs_select name branch)).
      fold (runs_url repo).
      by rewrite (selector_first_match _ _ _ _ _ _ _ _ _ _ _ Hy Hrec
                    (run_selector_test name branch _ Hwf) Hend Hfuel). }
    split; [done|split].
    + intros r Hr. apply find_some in Hr as [Hin Hm]. split; [done|].
      by intros ->.
    + intros Hex. rewrite Hrun. simpl. rewrite find_existsb in Hex.
      by destruct (find (run_matches name branch) (concat ls)).
Qed.

Lemma run_selector_first_match_witness :
  find_latest_successful_workflow_run 3 Toy.rt "acme/widget" (Some "CI") (Some "main")
    Toy.hdrs Toy.w0
  = (Ret Toy.run_d, add_events Toy.w0 (requests Toy.hdrs Toy.runs_pages))
  ∧ py_getitem Toy.run_d "conclusion" = Ret (PStr "success").
Proof.
  destruct (run_selector_first_match 3 Toy.rt "acme/widget" (Some "CI") (Some "main")
              Toy.hdrs Toy.w0) as [Hsucc Hfirst].
  destruct (Hfirst Toy.runs_pages _ [[Toy.run_a; Toy.run_b]; [Toy.run_c; Toy.run_d]]
              Toy.runs_yield) as [Hr _].
  - repeat constructor.
  - repeat constructor.
  - left. reflexivity.
  - simpl. lia.
  - split; [exact Hr|]. apply (Hsucc _ _ Hr). discriminate.
Defined.

(** ** The Artifact Selector (C2) *)

(** The two scopes of the selector: the whole repository, or one run. *)
Inductive scope : Type :=
| RepoScope
| RunScope (run_id : pyval).

Definition artifacts_url (rt : runtime) (repo : string) (sc : scope) : string :=
  match sc with
  | RepoScope => mkurl ["repos"; repo; "actions"; "artifacts"] [("per_page", 50)]
  | RunScope run_id =>
      mkurl ["repos"; repo; "actions"; "runs"; py_str (repr_container rt) run_id; "artifacts"]
            [("per_page", 50)]
  end.

Definition find_artifact (fuel : nat) (rt : runtime) (repo : string) (sc : scope)
    (name : option string) (headers : list (string * string)) : M pyval :=
  match sc with
  | RepoScope => find_latest_repo_artifact fuel rt repo name headers
  | RunScope run_id => find_workflow_run_artifact fuel rt repo run_id name headers
  end.

Lemma find_artifact_unfold fuel rt repo sc name h :
  find_artifact fuel rt repo sc name h
  = (let! r := for_paged fuel rt h (GenStart (artifacts_url rt repo sc)) (scan_artifacts name) in
     ret (default PNone r)).
Proof. by destruct sc. Qed.

(** [name is unset OR artifact.name == name] *)
Definition artifact_matches (name : option string) (a : pyval) : bool :=
  match name with
  | None => true
  | Some n => field_eq a "name" n
  end.

(** The first record of the first non-empty page. *)
Fixpoint first_record (ls : list (list pyval)) : option pyval :=
  match ls with
  | [] => None
  | [] :: ls' => first_record ls'
  | (x :: _) :: _ => Some x
  end.

Lemma artifact_selected_record name a :
  (name ≠ None → artifact_record a = true) →
  artifact_selected name a = Ret (artifact_matches name a).
Proof.
  destruct name as [n|]; simpl; [|done].
  unfold artifact_record, has_field, field_eq. intros H.
  destruct (py_getitem a "name") as [v| |]; simpl; [done|by discriminate H..].
Qed.

Lemma artifact_selected_name X a :
  artifact_selected (Some X) a = Ret true → py_getitem a "name" = Ret (PStr X).
Proof.
  simpl. destruct (py_getitem a "name") as [v| |]; simpl; [|done..].
  intros [= H]. destruct v; simpl in H; try done. apply String.eqb_eq in H. by subst.
Qed.

Lemma find_any_first_record ls :
  find (λ _ : pyval, true) (concat ls) = first_record ls.
Proof. induction ls as [|[|x l] ls IH]; simpl; done. Qed.

Lemma find_artifact_named fuel rt repo sc X h w a w' :
  find_artifact fuel rt repo sc (Some X) h w = (Ret a, w') →
  a ≠ PNone →
  py_getitem a "name" = Ret (PStr X).
Proof.
  rewrite find_artifact_unfold. unfold bind.
  destruct (for_paged _ _ _ _ _ _) as [[[v|]| |] w1] eqn:Hfor; unfold ret; simpl;
    intros [= <- _] Hnone; [|done].
  apply for_paged_ret in Hfor as [page Hpage].
  rewrite scan_artifacts_select in Hpage. apply select_in_ret in Hpage.
  by apply artifact_selected_name.
Qed.

(** C2.  With the name filter ["X"] an artifact the selector returns is
    named ["X"], whatever the server sends.  When the listing (of the
    repository or of a run) comes as pages of artifact records, the
    selector returns the first record, in page order, that passes
    [name is unset OR artifact.name == name], has requested the pages up to
    that record's and no further one, and returns [None] when there is no
    such record; with no filter, the record returned is the first record
    of the first non-empty page. *)
Theorem artifact_selector_first_match fuel rt repo sc name h w :
  (∀ X a w',
      name = Some X →
      find_artifact fuel rt repo sc name h w = (Ret a, w') →
      a ≠ PNone →
      py_getitem a "name" = Ret (PStr X))
  ∧ (∀ ups g' ls,
      gen_yields rt h (GenStart (artifacts_url rt repo sc)) ups g' →
      Forall2 (λ up l, page_records "artifacts" (snd up) = Some l) ups ls →
      (name ≠ None → Forall (λ a, artifact_record a = true) (concat ls)) →
      existsb (artifact_matches name) (concat ls) = true ∨ gen_exhausted g' →
      (length ups < fuel)%nat →
      find_artifact fuel rt repo sc name h w
      = (Ret (default PNone (find (artifact_matches name) (concat ls))),
         add_events w (requests h (take (pages_scanned (artifact_matches name) ls) ups)))
      ∧ (name = None → find (artifact_matches name) (concat ls) = first_record ls)).
Proof.
  split.
  - intros X a w' ->. apply find_artifact_named.
  - intros ups g' ls Hy Hrec Hwf Hend Hfuel. split.
    + rewrite find_artifact_unfold. unfold bind.
      rewrite (for_paged_ext _ _ _ _ _ _ _ (scan_artifacts_select name)).
      rewrite (selector_first_match _ _ _ _ _ (artifact_matches name) _ _ _ _ _ Hy Hrec);
        [done| |done..].
      destruct name as [n|].
      * eapply Forall_impl; [by apply Hwf|]. intros a Ha. simpl in Ha.
        by apply artifact_selected_record.
      * by apply Forall_true.
    + intros ->. apply find_any_first_record.
Qed.

Module ToyArtifacts.
Import Toy.

Definition pages : list (string * pyval) :=
  [(artifacts_url rt "acme/widget" RepoScope, artifacts_page)].

Lemma artifacts_yield :
  gen_yields rt hdrs (GenStart (artifacts_url rt "acme/widget" RepoScope)) pages
    (GenYielded {| link := None; body := "artifacts"; complete := true |}).
Proof. eapply gen_yields_cons; [reflexivity..|]. apply gen_yields_nil. Defined.

End ToyArtifacts.

Lemma artifact_selector_first_match_witness :
  find_artifact 2 Toy.rt "acme/widget" RepoScope (Some "build") Toy.hdrs Toy.w0
  = (Ret Toy.build, add_events Toy.w0 (requests Toy.hdrs ToyArtifacts.pages))
  ∧ py_getitem Toy.build "name" = Ret (PStr "build").
Proof.
  destruct (artifact_selector_first_match 2 Toy.rt "acme/widget" RepoScope (Some "build")
              Toy.hdrs Toy.w0) as [Hname Hfirst].
  destruct (Hfirst ToyArtifacts.pages _ [[Toy.docs; Toy.build]] ToyArtifacts.artifacts_yield) as [Hr _].
  - repeat constructor.
  - intros _. repeat constructor.
  - left. reflexivity.
  - simpl. lia.
  - split; [exact Hr|]. apply (Hname "build" _ _ eq_refl Hr). discriminate.
Defined.

(** ** Pagination is transparent to selection (C6) *)




(** The same runs as [Toy.rt] serves on two pages, on one page. *)
Module ToyUnified.
Import Toy.




End ToyUnified.


(** ** Empty-string filters (C10) *)



(** In the toy repository no artifact has the empty name: the empty-string
    filter finds nothing where no filter finds the first artifact, while
    the run selector finds the same run with the empty-string branch as
    with none. *)
Example empty_filter_toy :
  fst (find_artifact 2 Toy.rt "acme/widget" RepoScope (Some "") Toy.hdrs Toy.w0) = Ret PNone
  ∧ fst (find_artifact 2 Toy.rt "acme/widget" RepoScope None Toy.hdrs Toy.w0) = Ret Toy.docs
  ∧ fst (find_latest_successful_workflow_run 3 Toy.rt "acme/widget" (Some "CI") (Some "")
           Toy.hdrs Toy.w0) = Ret Toy.run_c
  ∧ fst (find_latest_successful_workflow_run 3 Toy.rt "acme/widget" (Some "CI") None
           Toy.hdrs Toy.w0) = Ret Toy.run_c.
Proof. repeat split; reflexivity. Qed.

(** ** The Cache Guard's test (C3) *)

Definition CR : ascii := "013"%char.
Definition LF : ascii := "010"%char.

Fixpoint no_newline (s : string) : bool :=
  match s with
  | EmptyString => true
  | String c r => negb (Ascii.eqb c CR) && negb (Ascii.eqb c LF) && no_newline r
  end.

Lemma universal_newlines_cons a r :
  universal_newlines (String a r)
  = if Ascii.eqb a CR
    then String LF (universal_newlines match r with
                                       | String c r' => if Ascii.eqb c LF then r' else r
                                       | EmptyString => r
                                       end)
    else String a (universal_newlines r).
Proof.
  destruct a as [[] [] [] [] [] [] [] []]; try reflexivity.
  destruct r as [|[[] [] [] [] [] [] [] []] r']; reflexivity.
Qed.

Lemma universal_newlines_plain s :
  no_newline s = true → universal_newlines s = s.
Proof.
  induction s as [|a r IH]; [done|].
  rewrite universal_newlines_cons. simpl.
  destruct (Ascii.eqb a CR); simpl; [done|].
  destruct (Ascii.eqb a LF); simpl; [done|]. intros Hr. by rewrite IH.
Qed.

Lemma universal_newlines_to_plain s d :
  no_newline d = true → universal_newlines s = d → s = d.
Proof.
  revert d. induction s as [|a r IH]; intros d Hd; [done|].
  rewrite universal_newlines_cons.
  destruct (Ascii.eqb a CR) eqn:Ha.
  - intros <-. by simpl in Hd.
  - intros <-. simpl in Hd. f_equal. apply IH; [|done].
    by destruct (negb (Ascii.eqb a CR) && negb (Ascii.eqb a LF)).
Qed.

Lemma pretty_N_char_no_newline x :
  negb (Ascii.eqb (pretty_N_char x) CR) && negb (Ascii.eqb (pretty_N_char x) LF) = true.
Proof. unfold pretty_N_char. by repeat case_match. Qed.

Lemma pretty_N_go_no_newline x s :
  no_newline s = true → no_newline (pretty_N_go x s) = true.
Proof.
  revert s. induction (N.lt_wf_0 x) as [x _ IH]; intros s Hs.
  assert (x = 0 ∨ 0 < x)%N as [->|Hx] by lia; [by rewrite pretty_N_go_0|].
  rewrite pretty_N_go_step by done. apply IH.
  - by apply N.div_lt.
  - simpl. by rewrite pretty_N_char_no_newline.
Qed.

Lemma pretty_N_no_newline (x : N) : no_newline (pretty x) = true.
Proof.
  unfold pretty, pretty_N. case_decide; [done|]. by apply pretty_N_go_no_newline.
Qed.

Lemma pretty_Z_no_newline (n : Z) : no_newline (pretty n) = true.
Proof.
  unfold pretty, pretty_Z. destruct n as [|p|p]; [done| |].
  - apply pretty_N_no_newline.
  - simpl. apply pretty_N_no_newline.
Qed.

(** Read in text mode, a file gives the decimal form of [n] exactly when
    its bytes are that decimal form. *)
Lemma universal_newlines_decimal c (n : Z) :
  universal_newlines c = pretty n ↔ c = pretty n.
Proof.
  split.
  - apply universal_newlines_to_plain, pretty_Z_no_newline.
  - intros ->. apply universal_newlines_plain, pretty_Z_no_newline.
Qed.

Lemma should_skip_some rt p artifact w :
  should_skip rt (Some p) artifact w
  = match fs w !! p with
    | None => (Ret false, w)
    | Some Dir => (Exc OSError, w)
    | Some (File c) =>
        ((let? id := py_getitem artifact "id" in
          Ret (String.eqb (universal_newlines c) (py_str (repr_container rt) id))), w)
    end.
Proof.
  unfold should_skip, bind, path_exists, read_text, lift, ret.
  destruct (fs w !! p) as [[c|]|] eqn:Hp.
  - rewrite bool_decide_true by eauto. simpl. rewrite Hp.
    by destruct (py_getitem artifact "id").
  - rewrite bool_decide_true by eauto. simpl. by rewrite Hp.
  - rewrite bool_decide_false by (by intros [? ?]). done.
Qed.



(** ** Effects as events

    The file system after a run is the file system before it with the
    file events of the run applied in order. *)

Definition apply_event (e : event) (f : gmap string node) : gmap string node :=
  match e with
  | EvOpenWb p => <[p := File ""]> f
  | EvWrite p chunk =>
      match f !! p with
      | Some (File c) => <[p := File (c +:+ chunk)]> f
      | _ => f
      end
  | EvWriteText p s => <[p := File s]> f
  | _ => f
  end.

Definition play (w : world) (evs : list event) : world :=
  {| fs := foldl (λ f e, apply_event e f) (fs w) evs; trace := trace w ++ evs |}.

Lemma play_nil w : play w [] = w.
Proof. destruct w. unfold play. simpl. by rewrite app_nil_r. Qed.

Lemma play_app w evs1 evs2 : play (play w evs1) evs2 = play w (evs1 ++ evs2).
Proof. unfold play. simpl. by rewrite foldl_app, app_assoc. Qed.

(** Events that leave the file system alone. *)
Definition quiet (e : event) : bool :=
  match e with
  | EvOpenWb _ | EvWrite _ _ | EvWriteText _ _ => false
  | _ => true
  end.

(** The path an event writes to. *)
Definition event_path (e : event) : option string :=
  match e with
  | EvOpenWb p | EvWrite p _ | EvWriteText p _ => Some p
  | _ => None
  end.

Lemma apply_event_other e f q :
  event_path e ≠ Some q → apply_event e f !! q = f !! q.
Proof.
  destruct e as [| | | |p|p c|p s]; simpl; try done; intros Hp.
  - apply lookup_insert_ne. congruence.
  - destruct (f !! p) as [[c0|]|]; [|done..]. apply lookup_insert_ne. congruence.
  - apply lookup_insert_ne. congruence.
Qed.

(** A file no event of the run writes to is left as it was. *)
Lemma play_untouched w evs q :
  Forall (λ e, event_path e ≠ Some q) evs → fs (play w evs) !! q = fs w !! q.
Proof.
  unfold play. simpl. intros H. generalize (fs w).
  induction H as [|e evs He _ IH]; intros f; simpl; [done|].
  rewrite IH. by apply apply_event_other.
Qed.

Lemma emit_play e w : quiet e = true → emit e w = (Ret tt, play w [e]).
Proof. by destruct e. Qed.

Lemma write_text_play p s w :
  write_text p s w = (Ret tt, play w [EvWriteText p s]) ∨ write_text p s w = (Exc OSError, w).
Proof. unfold write_text. destruct (fs w !! p) as [[c|]|]; (by left) || (by right). Qed.

Lemma file_write_play p chunk c w :
  fs w !! p = Some (File c) →
  file_write p chunk w = (Ret tt, play w [EvWrite p chunk])
  ∧ fs (play w [EvWrite p chunk]) !! p = Some (File (c +:+ chunk)).
Proof.
  intros Hp. unfold file_write, play. simpl. rewrite Hp. split; [done|].
  simpl. apply lookup_insert_eq.
Qed.

(** ** The Download Engine (C8, C9) *)

(** The progress marker of one turn of the loop. *)
Definition marker (verbose : bool) : list event :=
  if verbose then [EvStdout "."] else [].

(** What the loop does, as a value: its outcome and the events it leaves. *)
Fixpoint loop_run (fuel : nat) (res : response) (filename : string) (verbose : bool)
  : outcome unit * list event :=
  match fuel with
  | O => (OutOfFuel, [])
  | S fuel' =>
      match res_read (1024 * 8) res with
      | Ret rd =>
          if negb (str_truthy (fst rd)) then (Ret tt, marker verbose)
          else
            let '(o, evs) := loop_run fuel' (snd rd) filename verbose in
            (o, (marker verbose ++ EvWrite filename (fst rd) :: evs)%list)
      | Exc e => (Exc e, [])
      | OutOfFuel => (OutOfFuel, [])
      end
  end.

Lemma when_marker verbose w :
  when verbose (print_noend ".") w = (Ret tt, play w (marker verbose)).
Proof. destruct verbose; simpl; [done|]. unfold ret. by rewrite play_nil. Qed.

Lemma play_marker_fs verbose w : fs (play w (marker verbose)) = fs w.
Proof. by destruct verbose. Qed.

Lemma download_loop_run fuel res filename verbose w c :
  fs w !! filename = Some (File c) →
  download_loop fuel res filename verbose w
  = (fst (loop_run fuel res filename verbose),
     play w (snd (loop_run fuel res filename verbose))).
Proof.
  revert res w c. induction fuel as [|fuel IH]; intros res w c Hf; simpl.
  { unfold out_of_fuel. by rewrite play_nil. }
  unfold bind at 1, lift.
  destruct (res_read (1024 * 8) res) as [[chunk res']| |]; simpl;
    [|by rewrite play_nil..].
  unfold bind at 1. rewrite when_marker.
  destruct (str_truthy chunk); simpl; [|done].
  unfold bind at 1.
  assert (fs (play w (marker verbose)) !! filename = Some (File c)) as Hf'
    by (by rewrite play_marker_fs).
  destruct (file_write_play filename chunk c _ Hf') as [-> Hf''].
  rewrite (IH _ _ _ Hf'').
  destruct (loop_run fuel res' filename verbose) as [o evs]. simpl.
  by rewrite !play_app.
Qed.

(** The chunks the loop writes. *)
Definition written (evs : list event) : list string :=
  omap (λ e, match e with EvWrite _ c => Some c | _ => None end) evs.

Definition is_marker (e : event) : bool :=
  match e with
  | EvStdout s => String.eqb s "."
  | _ => false
  end.

Fixpoint markers (evs : list event) : nat :=
  match evs with
  | [] => O
  | e :: evs' => if is_marker e then S (markers evs') else markers evs'
  end.

Lemma written_turn verbose filename chunk evs :
  written (marker verbose ++ EvWrite filename chunk :: evs) = chunk :: written evs.
Proof. by destruct verbose. Qed.

Lemma markers_turn verbose filename chunk evs :
  markers (marker verbose ++ EvWrite filename chunk :: evs)
  = if verbose then S (markers evs) else markers evs.
Proof. by destruct verbose. Qed.

Lemma append_cons a s t : String a s +:+ t = String a (s +:+ t).
Proof. reflexivity. Qed.

Lemma str_take_drop n s : str_take n s +:+ str_drop n s = s.
Proof.
  revert n. induction s as [|a r IH]; intros n; simpl; [done|].
  destruct (n =? 0)%N; simpl; [done|]. by rewrite append_cons, IH.
Qed.

Lemma str_take_length n s : (N.of_nat (String.length (str_take n s)) ≤ n)%N.
Proof.
  revert n. induction s as [|a r IH]; intros n; simpl; [lia|].
  destruct (n =? 0)%N eqn:Hn; simpl; [lia|].
  apply N.eqb_neq in Hn. specialize (IH (N.pred n)). lia.
Qed.

Lemma str_take_empty n s : (0 < n)%N → str_take n s = "" → s = "".
Proof.
  destruct s as [|a r]; simpl; [done|].
  destruct (n =? 0)%N eqn:Hn; [|done]. apply N.eqb_eq in Hn. lia.
Qed.

Lemma str_truthy_false s : str_truthy s = false ↔ s = "".
Proof. by destruct s. Qed.


(** One read: the chunk and the rest make up the body; an empty chunk is
    the end of a body that arrived whole. *)
Lemma res_read_ret res chunk res' :
  res_read (1024 * 8) res = Ret (chunk, res') →
  body res = chunk +:+ body res'
  ∧ complete res' = complete res
  ∧ (N.of_nat (String.length chunk) ≤ 1024 * 8)%N
  ∧ (chunk = "" → body res = "" ∧ complete res = true).
Proof.
  unfold res_read.
  destruct ((N.of_nat (String.length (str_take (1024 * 8) (body res))) <? 1024 * 8)%N
            && negb (complete res)) eqn:Hc; [done|].
  intros [= <- <-]. simpl. split; [by rewrite str_take_drop|]. split; [done|]. split.
  - apply str_take_length.
  - intros He. rewrite He in Hc. simpl in Hc.
    split; [by apply (str_take_empty (1024 * 8))|]. by destruct (complete res).
Qed.


(** A loop that ends normally has read a body that arrived whole and has
    written it chunk by chunk, no chunk empty or longer than 8 KiB; it has
    printed one marker per turn, that is one per chunk written and one
    for the empty chunk that ends the loop. *)
Lemma loop_run_ret fuel res filename verbose evs :
  loop_run fuel res filename verbose = (Ret tt, evs) →
  complete res = true
  ∧ foldr String.append "" (written evs) = body res
  ∧ Forall (λ c, c ≠ "" ∧ (N.of_nat (String.length c) ≤ 1024 * 8)%N) (written evs)
  ∧ markers evs = (if verbose then S (length (written evs)) else O)
  ∧ Forall (λ e, e = EvStdout "." ∨ ∃ c, e = EvWrite filename c) evs.
Proof.
  revert res evs. induction fuel as [|fuel IH]; intros res evs; simpl; [done|].
  destruct (res_read (1024 * 8) res) as [[chunk res']| |] eqn:Hrd; simpl; [|done..].
  apply res_read_ret in Hrd as (Hbody & Hcomp & Hlen & Hend).
  destruct (str_truthy chunk) eqn:Hch; simpl.
  - destruct (loop_run fuel res' filename verbose) as [o evs'] eqn:Hloop.
    intros [= -> <-]. destruct (IH _ _ Hloop) as (Hc & Hw & Hchunks & Hm & Hevs).
    rewrite written_turn, markers_turn, Hm. simpl. rewrite Hw.
    repeat split; try done.
    + congruence.
    + constructor; [|done]. split; [|done]. intros ->. done.
    + by destruct verbose.
    + apply Forall_app. split; [destruct verbose; repeat constructor|].
      constructor; [right; eauto|done].
  - intros [= <-]. apply str_truthy_false in Hch. destruct (Hend Hch) as [Hb Hc].
    repeat split; try done.
    + by destruct verbose.
    + by destruct verbose.
    + by destruct verbose.
    + destruct verbose; repeat constructor.
Qed.

(** Whatever its outcome, the loop prints markers and writes to the
    destination, and nothing else. *)
Lemma loop_run_events fuel res filename verbose :
  Forall (λ e, e = EvStdout "." ∨ ∃ c, e = EvWrite filename c)
    (snd (loop_run fuel res filename verbose)).
Proof.
  revert res. induction fuel as [|fuel IH]; intros res; simpl; [constructor|].
  destruct (res_read (1024 * 8) res) as [[chunk res']| |]; simpl; try constructor.
  destruct (str_truthy chunk); simpl.
  - specialize (IH res'). destruct (loop_run fuel res' filename verbose) as [o evs]. simpl in *.
    apply Forall_app. split; [destruct verbose; repeat constructor|].
    constructor; [right; eauto|done].
  - destruct verbose; repeat constructor.
Qed.


Lemma append_nil_r s : s +:+ "" = s.
Proof. induction s as [|a r IH]; [done|]. by rewrite append_cons, IH. Qed.

Lemma append_assoc s t u : (s +:+ t) +:+ u = s +:+ t +:+ u.
Proof. induction s as [|a r IH]; [done|]. by rewrite !append_cons, IH. Qed.

(** The file the loop writes to ends up with the chunks appended. *)
Lemma loop_events_fs filename evs (f : gmap string node) c :
  Forall (λ e, e = EvStdout "." ∨ ∃ c, e = EvWrite filename c) evs →
  f !! filename = Some (File c) →
  foldl (λ f e, apply_event e f) f evs
  = <[filename := File (c +:+ foldr String.append "" (written evs))]> f.
Proof.
  intros Hevs. revert f c. induction Hevs as [|e evs He _ IH]; intros f c Hf; simpl.
  - rewrite append_nil_r. by rewrite insert_id.
  - destruct He as [->|[c1 ->]]; simpl; [by apply IH|].
    rewrite Hf. rewrite (IH _ (c +:+ c1)) by apply lookup_insert_eq.
    by rewrite insert_insert_eq, append_assoc.
Qed.

Lemma bind_ret {A B} (m : M A) (k : A → M B) w a w1 :
  m w = (Ret a, w1) → bind m k w = k a w1.
Proof. unfold bind. by intros ->. Qed.

Lemma bind_exc {A B} (m : M A) (k : A → M B) w e w1 :
  m w = (Exc e, w1) → bind m k w = (Exc e, w1).
Proof. unfold bind. by intros ->. Qed.

Lemma urlopen_run rt r w :
  urlopen rt r w
  = match net rt r with
    | inr res => (Ret res, play w [EvRequest r])
    | inl e => (Exc e, play w [EvRequest r])
    end.
Proof. unfold urlopen, bind. rewrite emit_play by done. by destruct (net rt r). Qed.

Lemma open_wb_run p w :
  open_wb p w
  = match fs w !! p with
    | Some Dir => (Exc OSError, w)
    | _ => (Ret tt, play w [EvOpenWb p])
    end.
Proof. unfold open_wb. by destruct (fs w !! p) as [[c|]|]. Qed.

Lemma when_print verbose s w :
  when verbose (print s) w
  = (Ret tt, play w (if verbose then [EvStdout (s +:+ newline)] else [])).
Proof. destruct verbose; simpl; [done|]. unfold ret. by rewrite play_nil. Qed.

(** [download_file] on a string URL, case by case. *)
Lemma download_file_run rt u filename h verbose w :
  download_file rt (PStr u) filename h verbose w
  = match net rt {| req_url := u; req_headers := h |} with
    | inl e => (Exc e, play w [EvRequest {| req_url := u; req_headers := h |}])
    | inr res =>
        match fs w !! filename with
        | Some Dir => (Exc OSError, play w [EvRequest {| req_url := u; req_headers := h |}])
        | _ =>
            match fst (loop_run (S (String.length (body res))) res filename verbose) with
            | Ret _ =>
                (Ret PNone,
                 play w (EvRequest {| req_url := u; req_headers := h |} :: EvOpenWb filename
                         :: snd (loop_run (S (String.length (body res))) res filename verbose)
                         ++ (if verbose then [EvStdout newline] else [])))
            | Exc e =>
                (Exc e,
                 play w (EvRequest {| req_url := u; req_headers := h |} :: EvOpenWb filename
                         :: snd (loop_run (S (String.length (body res))) res filename verbose)))
            | OutOfFuel =>
                (OutOfFuel,
                 play w (EvRequest {| req_url := u; req_headers := h |} :: EvOpenWb filename
                         :: snd (loop_run (S (String.length (body res))) res filename verbose)))
            end
        end
    end.
Proof.
  set (rq := EvRequest {| req_url := u; req_headers := h |}). unfold download_file.
  pose proof (urlopen_run rt {| req_url := u; req_headers := h |} w) as Hopen.
  destruct (net rt _) as [e|res]; [by rewrite (bind_exc _ _ _ _ _ Hopen)|].
  rewrite (bind_ret _ _ _ _ _ Hopen).
  pose proof (open_wb_run filename (play w [rq])) as Hwb.
  change (fs (play w [rq])) with (fs w) in Hwb. fold rq.
  assert (fs (play (play w [rq]) [EvOpenWb filename]) !! filename = Some (File "")) as Hnew.
  { simpl. apply lookup_insert_eq. }
  destruct (fs w !! filename) as [[c|]|] eqn:Hf;
    [|by rewrite (bind_exc _ _ _ _ _ Hwb)|];
    (rewrite (bind_ret _ _ _ _ _ Hwb);
     unfold bind at 1;
     rewrite (download_loop_run _ _ _ _ _ "") by exact Hnew;
     destruct (loop_run _ res filename verbose) as [[[]| |] evs]; simpl;
       rewrite !play_app; try done;
     unfold bind; rewrite when_print; unfold ret; by rewrite play_app, <- !app_assoc).
Qed.

Lemma markers_app evs1 evs2 : markers (evs1 ++ evs2) = (markers evs1 + markers evs2)%nat.
Proof. induction evs1 as [|e evs1 IH]; simpl; [done|]. destruct (is_marker e); simpl; lia. Qed.

Lemma written_app evs1 evs2 : written (evs1 ++ evs2) = (written evs1 ++ written evs2)%list.
Proof. apply omap_app. Qed.

(** A download that returns, in full: what it was given, what it leaves. *)
Lemma download_file_ret rt url filename h verbose w v w' :
  download_file rt url filename h verbose w = (Ret v, w') →
  v = PNone
  ∧ ∃ u res evs,
      url = PStr u
      ∧ net rt {| req_url := u; req_headers := h |} = inr res
      ∧ complete res = true
      ∧ loop_run (S (String.length (body res))) res filename verbose = (Ret tt, evs)
      ∧ w' = play w (EvRequest {| req_url := u; req_headers := h |} :: EvOpenWb filename :: evs
                     ++ (if verbose then [EvStdout newline] else []))
      ∧ fs w' = <[filename := File (body res)]> (fs w).
Proof.
  destruct url as [| | |u| |]; try done.
  rewrite download_file_run.
  destruct (net rt _) as [e|res] eqn:Hnet; [done|].
  destruct (fs w !! filename) as [[c|]|]; [|done|];
    (destruct (loop_run _ res filename verbose) as [[[]| |] evs] eqn:Hloop; simpl; try done;
     intros [= <- <-]; split; [done|]; exists u, res, evs;
     destruct (loop_run_ret _ _ _ _ _ Hloop) as (Hc & Hw & _ & _ & Hevs);
     repeat split; try done;
     simpl; rewrite foldl_app;
     rewrite (loop_events_fs filename evs _ "" Hevs) by apply lookup_insert_eq;
     rewrite Hw, insert_insert_eq; by destruct verbose).
Qed.




(** C9, as the claim words it, fails: the verbose download of the three
    bytes of artifact 7 writes one chunk and prints two markers. *)
Lemma progress_markers_counterexample :
  let w' := snd (download_file Toy.rt (PStr "https://api.github.com/zip/7") "docs.zip" Toy.hdrs
                   true Toy.w0) in
  written (trace w') = ["zip"] ∧ markers (trace w') = 2%nat.
Proof. split; vm_compute; reflexivity. Qed.

(** C9, amended: a download that completes with progress reporting enabled
    has printed one progress marker per read of the stream, that is one
    per chunk written and one more for the empty read that ends the
    stream; the chunks written are non-empty, of at most 8 KiB, and make
    up the body.  Without progress reporting it prints no marker. *)
Theorem progress_markers rt url filename h verbose w v w' :
  download_file rt url filename h verbose w = (Ret v, w') →
  ∃ evs,
    w' = play w evs
    ∧ markers evs = (if verbose then S (length (written evs)) else O)
    ∧ Forall (λ c, c ≠ "" ∧ (N.of_nat (String.length c) ≤ 1024 * 8)%N) (written evs)
    ∧ fs w' !! filename = Some (File (foldr String.append "" (written evs))).
Proof.
  intros (-> & u & res & evs & -> & Hnet & Hc & Hloop & -> & Hfs)%download_file_ret.
  destruct (loop_run_ret _ _ _ _ _ Hloop) as (_ & Hw & Hchunks & Hm & _).
  eexists. split; [done|].
  assert (written (EvRequest {| req_url := u; req_headers := h |} :: EvOpenWb filename
                   :: evs ++ (if verbose then [EvStdout newline] else [])) = written evs) as Hwr.
  { simpl. change (written (evs ++ ?x)) with (written (evs ++ x)).
    rewrite written_app. destruct verbose; simpl; by rewrite app_nil_r. }
  rewrite Hwr. split; [|split; [done|]].
  - simpl. rewrite markers_app, Hm. destruct verbose; simpl; lia.
  - rewrite Hfs, Hw. apply lookup_insert_eq.
Qed.

Lemma progress_markers_witness :
  ∃ evs,
    snd (download_file Toy.rt (PStr "https://api.github.com/zip/7") "docs.zip" Toy.hdrs true
           Toy.w0) = play Toy.w0 evs
    ∧ markers evs = S (length (written evs)).
Proof.
  destruct (progress_markers Toy.rt (PStr "https://api.github.com/zip/7") "docs.zip" Toy.hdrs
              true Toy.w0 PNone
              (snd (download_file Toy.rt (PStr "https://api.github.com/zip/7") "docs.zip"
                      Toy.hdrs true Toy.w0)))
    as (evs & Hw & Hm & _).
  - vm_compute. reflexivity.
  - exists evs. split; [exact Hw|exact Hm].
Defined.

(** ** What a stage of the pipeline may leave in the trace

    [emits P m]: whatever its outcome, [m] runs to a world that is the
    one it started in with events added that all satisfy [P]. *)

Definition emits {A} (P : event → Prop) (m : M A) : Prop :=
  ∀ w o w', m w = (o, w') → ∃ evs, w' = play w evs ∧ Forall P evs.

(** Requests, and output when [verbose]. *)
Definition net_or_out (verbose : bool) (e : event) : Prop :=
  match e with
  | EvRequest _ => True
  | EvStdout _ => verbose = true
  | _ => False
  end.

Lemma net_or_out_no_path verbose e q : net_or_out verbose e → event_path e ≠ Some q.
Proof. by destruct e. Qed.

Section Emits.
Context (P : event → Prop).

Lemma emits_ret {A} (a : A) : emits P (ret a).
Proof. intros w o w' [= <- <-]. exists []. by rewrite play_nil. Qed.

Lemma emits_raise {A} e : emits P (@raise A e).
Proof. intros w o w' [= <- <-]. exists []. by rewrite play_nil. Qed.

Lemma emits_out_of_fuel {A} : emits P (@out_of_fuel A).
Proof. intros w o w' [= <- <-]. exists []. by rewrite play_nil. Qed.

Lemma emits_lift {A} (o : outcome A) : emits P (lift o).
Proof. intros w o' w' [= <- <-]. exists []. by rewrite play_nil. Qed.

Lemma emits_emit e : quiet e = true → P e → emits P (emit e).
Proof.
  intros He HP w o w'. rewrite emit_play by done. intros [= <- <-].
  exists [e]. split; [done|]. by constructor.
Qed.

Lemma emits_bind {A B} (m : M A) (k : A → M B) :
  emits P m → (∀ a, emits P (k a)) → emits P (bind m k).
Proof.
  intros Hm Hk w o w'. unfold bind.
  destruct (m w) as [[a| |] w1] eqn:Hmw; destruct (Hm _ _ _ Hmw) as (evs1 & -> & Hq1).
  - intros Hka. destruct (Hk _ _ _ _ Hka) as (evs2 & -> & Hq2).
    exists (evs1 ++ evs2). rewrite play_app. split; [done|]. by apply Forall_app.
  - intros [= <- <-]. by exists evs1.
  - intros [= <- <-]. by exists evs1.
Qed.

Lemma emits_when c (m : M unit) : (c = true → emits P m) → emits P (when c m).
Proof. destruct c; simpl; [by intros H; apply H|]. intros _. apply emits_ret. Qed.

Hypothesis P_request : ∀ r, P (EvRequest r).

Lemma emits_urlopen rt r : emits P (urlopen rt r).
Proof.
  unfold urlopen. apply emits_bind; [by apply emits_emit|]. intros _.
  destruct (net rt r); [apply emits_raise|apply emits_ret].
Qed.

Lemma emits_fetch_page rt h url : emits P (fetch_page rt h url).
Proof.
  unfold fetch_page. apply emits_bind; [apply emits_urlopen|]. intros res.
  apply emits_bind; [apply emits_lift|]. intros text.
  destruct (json_loads rt text); [apply emits_ret|apply emits_raise].
Qed.

Lemma emits_get_paged_next rt h g : emits P (get_paged_next rt h g).
Proof.
  destruct g as [url|res|]; simpl; [apply emits_fetch_page| |apply emits_ret].
  destruct (opt_truthy (rel_next_link res)); [apply emits_fetch_page|apply emits_ret].
Qed.

Lemma emits_for_paged {A} fuel rt h g (body : pyval → outcome (option A)) :
  emits P (for_paged fuel rt h g body).
Proof.
  revert g. induction fuel as [|fuel IH]; intros g; simpl; [apply emits_out_of_fuel|].
  apply emits_bind; [apply emits_get_paged_next|]. intros [[page|] g'];
    [|apply emits_ret].
  apply emits_bind; [apply emits_lift|]. intros [v|]; [apply emits_ret|apply IH].
Qed.

Lemma emits_find_latest_repo_artifact fuel rt repo name h :
  emits P (find_latest_repo_artifact fuel rt repo name h).
Proof.
  unfold find_latest_repo_artifact. apply emits_bind; [apply emits_for_paged|].
  intros r. apply emits_ret.
Qed.

Lemma emits_find_workflow_run_artifact fuel rt repo run_id name h :
  emits P (find_workflow_run_artifact fuel rt repo run_id name h).
Proof.
  unfold find_workflow_run_artifact. apply emits_bind; [apply emits_for_paged|].
  intros r. apply emits_ret.
Qed.

Lemma emits_find_latest_successful_workflow_run fuel rt repo name branch h :
  emits P (find_latest_successful_workflow_run fuel rt repo name branch h).
Proof.
  unfold find_latest_successful_workflow_run. apply emits_bind; [apply emits_for_paged|].
  intros r. apply emits_ret.
Qed.

End Emits.

Lemma emits_print verbose s : verbose = true → emits (net_or_out verbose) (print s).
Proof. intros ->. by apply emits_emit. Qed.

(** The selection stage makes requests, and prints when [verbose]. *)
Lemma emits_select_artifact fuel rt args h :
  emits (net_or_out (arg_verbose args)) (select_artifact fuel rt args h).
Proof.
  unfold select_artifact. destruct (opt_truthy (arg_workflow args));
    [|by apply emits_find_latest_repo_artifact].
  apply emits_bind; [by apply emits_find_latest_successful_workflow_run|]. intros run.
  destruct (negb (py_truthy run)); [apply emits_raise|].
  apply emits_bind.
  - apply emits_when. intros Hv.
    repeat (apply emits_bind; [apply emits_lift|]; intros ?). by apply emits_print.
  - intros _. apply emits_bind; [apply emits_lift|]. intros run_id.
    by apply emits_find_workflow_run_artifact.
Qed.

Lemma should_skip_world rt cache_file artifact w :
  snd (should_skip rt cache_file artifact w) = w.
Proof.
  destruct cache_file as [p|]; [|done]. rewrite should_skip_some.
  by destruct (fs w !! p) as [[c|]|].
Qed.

(** The record: nothing without a cache path; otherwise the identifier's
    string is written to the cache path, unless the artifact has no
    identifier or the path is a directory, and then nothing is written. *)
Lemma record_cases rt cache_file artifact w r w' :
  record rt cache_file artifact w = (r, w') →
  (r ≠ Ret tt ∧ w' = w)
  ∨ (r = Ret tt ∧ cache_file = None ∧ w' = w)
  ∨ (r = Ret tt
     ∧ ∃ p id, cache_file = Some p ∧ py_getitem artifact "id" = Ret id
               ∧ w' = play w [EvWriteText p (py_str (repr_container rt) id)]).
Proof.
  unfold record. destruct cache_file as [p|]; [|intros [= <- <-]; right; by left].
  unfold bind, lift. destruct (py_getitem artifact "id") as [id| |]; simpl;
    [|intros [= <- <-]; by left..].
  destruct (write_text_play p (py_str (repr_container rt) id) w) as [-> | ->];
    intros [= <- <-]; [|by left].
  right; right. split; [done|]. by exists p, id.
Qed.

(** ** The runs of the pipeline

    Every run of [main] ends in one of five ways, the terminal states of
    the pipeline: it stops before a download is started; the cache guard
    finds the artifact already downloaded; the download fails; the record
    fails; or all is done. *)

Definition failed {A} (o : outcome A) : Prop := ∀ a, o ≠ Ret a.

Definition recast {A B} (o : outcome A) : outcome B :=
  match o with
  | Exc e => Exc e
  | _ => OutOfFuel
  end.

(** Output, and only when [verbose]. *)
Definition printed (verbose : bool) (e : event) : Prop :=
  match e with
  | EvStdout _ => verbose = true
  | _ => False
  end.

Lemma printed_net_or_out verbose e : printed verbose e → net_or_out verbose e.
Proof. by destruct e. Qed.

Lemma emits_printed verbose s : verbose = true → emits (printed verbose) (print s).
Proof. intros ->. by apply emits_emit. Qed.

Section Pipeline.
Variables (fuel : nat) (rt : runtime) (args : Args).

Let token := py_or (arg_token args) (GITHUB_TOKEN rt).
Let headers := make_headers (default "" token).
Let verbose := arg_verbose args.

(** The events of a run that has not started a download: those of the
    selection stage, if it was entered, and then output only. *)
Definition before_download (w : world) (evs : list event) : Prop :=
  ∃ evs1 evs2,
    evs = evs1 ++ evs2
    ∧ (evs1 = [] ∨ snd (select_artifact fuel rt args headers w) = play w evs1)
    ∧ Forall (net_or_out verbose) evs1
    ∧ Forall (printed verbose) evs2.

Lemma before_download_net_or_out w evs :
  before_download w evs → Forall (net_or_out verbose) evs.
Proof.
  intros (evs1 & evs2 & -> & _ & H1 & H2). apply Forall_app. split; [done|].
  eapply Forall_impl; [exact H2|]. apply printed_net_or_out.
Qed.

Lemma before_download_print w evs (msg : list event) :
  before_download w evs → Forall (printed verbose) msg → before_download w (evs ++ msg).
Proof.
  intros (evs1 & evs2 & -> & Hsel & H1 & H2) Hmsg.
  exists evs1, (evs2 ++ msg). rewrite app_assoc. repeat split; try done.
  by apply Forall_app.
Qed.

(** The selection stage has given the artifact [a], and [evs] are the
    events of the run up to the cache guard. *)
Definition resolved (w : world) (a : pyval) (evs : list event) : Prop :=
  opt_truthy token = true
  ∧ fst (select_artifact fuel rt args headers w) = Ret a
  ∧ py_truthy a = true
  ∧ before_download w evs.

Definition hit_message : list event :=
  if verbose then [EvStdout ("Artifact already downladed, exiting" +:+ newline)] else [].

Definition downloading_message (url : pyval) : list event :=
  if verbose
  then [EvStdout (("Downloading " +:+ py_str (repr_container rt) url) +:+ newline)]
  else [].

Definition done_message (filename : string) : list event :=
  (if verbose then [EvStdout (("File downloaded to " +:+ filename) +:+ newline)] else [])
  ++ [EvStdout (resolve rt filename +:+ newline)].

Lemma hit_message_printed : Forall (printed verbose) hit_message.
Proof. unfold hit_message. destruct verbose eqn:Hv; by repeat constructor. Qed.

Lemma downloading_message_printed url : Forall (printed verbose) (downloading_message url).
Proof. unfold downloading_message. destruct verbose eqn:Hv; by repeat constructor. Qed.

Inductive pipeline (w : world) : outcome unit → world → Prop :=
| run_stopped r evs :
    r ≠ Ret tt →
    before_download w evs →
    pipeline w r (play w evs)
| run_hit a evs :
    resolved w a evs →
    should_skip rt (cache_path args) a (play w evs) = (Ret true, play w evs) →
    pipeline w (Ret tt) (play w (evs ++ hit_message))
| run_download_failed a evs url filename r w' :
    resolved w a evs →
    should_skip rt (cache_path args) a (play w evs) = (Ret false, play w evs) →
    py_getitem a "archive_download_url" = Ret url →
    target_filename args a = Ret filename →
    download_file rt url filename headers verbose (play w (evs ++ downloading_message url))
    = (r, w') →
    failed r →
    pipeline w (recast r) w'
| run_record_failed a evs url filename w' r :
    resolved w a evs →
    should_skip rt (cache_path args) a (play w evs) = (Ret false, play w evs) →
    py_getitem a "archive_download_url" = Ret url →
    target_filename args a = Ret filename →
    download_file rt url filename headers verbose (play w (evs ++ downloading_message url))
    = (Ret PNone, w') →
    record rt (cache_path args) a w' = (r, w') →
    r ≠ Ret tt →
    pipeline w r w'
| run_done a evs url filename w1 w2 :
    resolved w a evs →
    should_skip rt (cache_path args) a (play w evs) = (Ret false, play w evs) →
    py_getitem a "archive_download_url" = Ret url →
    target_filename args a = Ret filename →
    download_file rt url filename headers verbose (play w (evs ++ downloading_message url))
    = (Ret PNone, w1) →
    record rt (cache_path args) a w1 = (Ret tt, w2) →
    pipeline w (Ret tt) (play w2 (done_message filename)).

Lemma fetch_and_record_cases cache_file a w evs r w' :
  cache_file = cache_path args →
  resolved w a evs →
  should_skip rt cache_file a (play w evs) = (Ret false, play w evs) →
  fetch_and_record rt args headers cache_file a (play w evs) = (r, w') →
  pipeline w r w'.
Proof.
  intros -> Hres Hskip. unfold fetch_and_record.
  pose proof Hres as (Htok & Hsel & Hta & Hevs).
  unfold bind at 1, lift.
  destruct (py_getitem a "archive_download_url") as [url| |] eqn:Hurl;
    [|intros [= <- <-]; by apply run_stopped..].
  unfold bind at 1. rewrite when_print, play_app.
  unfold bind at 1, lift.
  pose proof (before_download_print _ _ _ Hevs (downloading_message_printed url)) as Hevs'.
  destruct (target_filename args a) as [filename| |] eqn:Hfn;
    [|intros [= <- <-]; by apply run_stopped..].
  unfold bind at 1.
  destruct (download_file rt url filename headers _ _) as [[v| |] w1] eqn:Hdl.
  - destruct (download_file_ret _ _ _ _ _ _ _ _ Hdl) as [-> _].
    unfold bind at 1.
    destruct (record rt (cache_path args) a w1) as [[[]| |] w2] eqn:Hrec.
    + unfold bind. rewrite when_print. unfold print. rewrite emit_play by done.
      rewrite play_app. intros [= <- <-].
      by eapply (run_done w a evs url filename w1 w2).
    + intros [= <- <-].
      destruct (record_cases _ _ _ _ _ _ Hrec) as [[_ ->]|[[? _]|[? _]]]; [|done..].
      by eapply (run_record_failed w a evs url filename w1 (Exc e)).
    + intros [= <- <-].
      destruct (record_cases _ _ _ _ _ _ Hrec) as [[_ ->]|[[? _]|[? _]]]; [|done..].
      by eapply (run_record_failed w a evs url filename w1 OutOfFuel).
  - intros [= <- <-].
    by eapply (run_download_failed w a evs url filename (Exc e) w1).
  - intros [= <- <-].
    by eapply (run_download_failed w a evs url filename OutOfFuel w1).
Qed.

End Pipeline.

Lemma main_cases fuel rt args w r w' :
  main fuel rt args w = (r, w') → pipeline fuel rt args w r w'.
Proof.
  unfold main.
  destruct (opt_truthy (py_or (arg_token args) (GITHUB_TOKEN rt))) eqn:Htok; simpl.
  2: { intros [= <- <-]. rewrite <- (play_nil w) at 2. apply run_stopped; [done|].
       exists [], []. repeat split; try done. by left. }
  unfold bind at 1.
  destruct (select_artifact fuel rt args _ w) as [o w1] eqn:Hsel.
  destruct (emits_select_artifact _ _ _ _ _ _ _ Hsel) as (evs1 & -> & Hevs1).
  assert (before_download fuel rt args w evs1) as Hbefore.
  { exists evs1, []. rewrite app_nil_r. repeat split; try done. right. by rewrite Hsel. }
  destruct o as [a| |]; [|intros [= <- <-]; by apply run_stopped..].
  destruct (py_truthy a) eqn:Hta; simpl;
    [|intros [= <- <-]; by apply run_stopped].
  unfold bind at 1.
  match goal with
  | |- context [when (arg_verbose args) ?m (play w evs1)] =>
      destruct (when (arg_verbose args) m (play w evs1)) as [o w2] eqn:Hdesc;
      assert (∃ evs2, w2 = play (play w evs1) evs2
                      ∧ Forall (printed (arg_verbose args)) evs2)
        as (evs2 & -> & Hevs2)
  end.
  { revert Hdesc. apply emits_when. intros Hv.
    repeat (apply emits_bind; [apply emits_lift|]; intros ?). by apply emits_printed. }
  rewrite play_app.
  pose proof (before_download_print _ _ _ _ _ _ Hbefore Hevs2) as Hevs.
  destruct o as [[]| |]; [|intros [= <- <-]; by apply run_stopped..].
  assert (resolved fuel rt args w a (evs1 ++ evs2)) as Hres.
  { split; [done|]. split; [by rewrite Hsel|]. done. }
  unfold bind at 1.
  pose proof (should_skip_world rt (cache_path args) a (play w (evs1 ++ evs2))) as Hw.
  destruct (should_skip rt (cache_path args) a (play w (evs1 ++ evs2))) as [o w3] eqn:Hskip.
  simpl in Hw. subst w3.
  destruct o as [[]| |]; [| |intros [= <- <-]; by apply run_stopped..].
  - rewrite when_print, play_app. intros [= <- <-]. by eapply run_hit.
  - by apply fetch_and_record_cases.
Qed.

(** ** The events of a download *)

Definition download_event (filename : string) (e : event) : Prop :=
  match e with
  | EvRequest _ | EvStdout _ => True
  | EvOpenWb q | EvWrite q _ => q = filename
  | _ => False
  end.




Lemma net_or_out_fs verbose w evs :
  Forall (net_or_out verbose) evs → fs (play w evs) = fs w.
Proof.
  intros H. apply map_eq. intros q. apply play_untouched.
  eapply Forall_impl; [exact H|]. intros e. apply net_or_out_no_path.
Qed.

(** A download, whatever its outcome, makes a request, prints, and writes
    to its destination only, after having opened it. *)
Lemma download_file_events rt url filename h verbose w o w' :
  download_file rt url filename h verbose w = (o, w') →
  ∃ evs,
    w' = play w evs
    ∧ Forall (download_event filename) evs
    ∧ (In (EvOpenWb filename) evs ∨ Forall (λ e, ∀ q, event_path e ≠ Some q) evs).
Proof.
  destruct url as [| | |u| |];
    try (intros [= <- <-]; exists []; rewrite play_nil; by repeat constructor).
  rewrite download_file_run.
  destruct (net rt _) as [e|res].
  { intros [= <- <-]. eexists. split; [done|]. split; [by repeat constructor|].
    right. by repeat constructor. }
  assert (Forall (download_event filename)
            (snd (loop_run (S (String.length (body res))) res filename verbose))) as Hloop.
  { eapply Forall_impl; [apply loop_run_events|]. by intros e [->|[c ->]]. }
  assert (∀ tail : list event,
            Forall (download_event filename) tail →
            Forall (download_event filename)
              (EvRequest {| req_url := u; req_headers := h |} :: EvOpenWb filename
               :: snd (loop_run (S (String.length (body res))) res filename verbose) ++ tail))
    as Hall.
  { intros tail Htail. repeat (constructor; [done|]). by apply Forall_app. }
  destruct (fs w !! filename) as [[c|]|].
  2: { intros [= <- <-]. eexists. split; [done|]. split; [by repeat constructor|].
       right. by repeat constructor. }
  all: destruct (fst (loop_run _ res filename verbose)) as [[]| |];
    intros [= <- <-]; eexists; (split; [done|]); (split; [|left; right; by left]).
  all: try (apply Hall; destruct verbose; by repeat constructor).
  all: rewrite <- (app_nil_r (snd _)); by apply Hall.
Qed.


(** ** The record comes after the download (C5) *)

Module ToyRuns.
Import Toy.

(** The artifact named [build], whose download breaks off, with the
    cache file also given as the destination of the download. *)
Definition args_alias : Args :=
  {| arg_repository := "acme/widget"; arg_token := None; arg_artifact := Some "build";
     arg_filename := Some "last_id"; arg_workflow := None; arg_branch := None;
     arg_cache_file := Some "last_id"; arg_traceback := false; arg_verbose := false |}.

(** The latest artifact of the repository, with a cache file. *)
Definition args_cache : Args :=
  {| arg_repository := "acme/widget"; arg_token := None; arg_artifact := None;
     arg_filename := None; arg_workflow := None; arg_branch := None;
     arg_cache_file := Some "last_id"; arg_traceback := false; arg_verbose := false |}.

Definition cached (id : string) : world :=
  {| fs := {["last_id" := File id]}; trace := [] |}.

End ToyRuns.




(** ** The Cache Guard in the pipeline (C4) *)

(** The test of the guard where the pipeline makes it: after events that
    have left the file system alone, on a cache file holding [c], for an
    artifact with the integer identifier [n]. *)
Lemma should_skip_cached rt verbose p a n c w evs :
  py_getitem a "id" = Ret (PInt n) →
  fs w !! p = Some (File c) →
  Forall (net_or_out verbose) evs →
  should_skip rt (Some p) a (play w evs) = (Ret (bool_decide (c = pretty n)), play w evs).
Proof.
  intros Hid Hp Hevs. rewrite should_skip_some, (net_or_out_fs _ _ _ Hevs), Hp, Hid. simpl.
  do 2 f_equal. case_bool_decide as Hc.
  - apply String.eqb_eq. by apply universal_newlines_decimal.
  - apply String.eqb_neq. by rewrite universal_newlines_decimal.
Qed.

(** C4.  Take a run of the pipeline with a cache file, holding [c], in
    which the selection stage gives an artifact with the identifier [n].
    If [c] is not the decimal form of [n], the guard does not skip: a run
    that succeeds has opened a destination file for the download, and has
    recorded [n] in the cache file.  If [c] is the decimal form of [n],
    as it is once the record has written it, the artifact is not
    downloaded again: the run makes no request after those of the
    selection stage and leaves every file as it was. *)
Theorem cache_guard_invariant fuel rt args w r w' a n p c :
  main fuel rt args w = (r, w') →
  fst (select_artifact fuel rt args
         (make_headers (default "" (py_or (arg_token args) (GITHUB_TOKEN rt)))) w) = Ret a →
  py_getitem a "id" = Ret (PInt n) →
  cache_path args = Some p →
  fs w !! p = Some (File c) →
  ∃ evs,
    w' = play w evs
    ∧ (c ≠ pretty n → r = Ret tt →
       (∃ filename, In (EvOpenWb filename) evs)
       ∧ fs w' !! p = Some (File (pretty n)))
    ∧ (c = pretty n → before_download fuel rt args w evs ∧ fs w' = fs w)
    ∧ (∀ w0 w1, record rt (Some p) a w0 = (Ret tt, w1) →
                fs w1 !! p = Some (File (pretty n))).
Proof.
  intros Hmain Hsel Hid Hcf Hp. apply main_cases in Hmain.
  assert (∀ w0 w1, record rt (Some p) a w0 = (Ret tt, w1) →
                   fs w1 !! p = Some (File (pretty n))) as Hrecord.
  { intros w0 w1 Hrec.
    destruct (record_cases _ _ _ _ _ _ Hrec) as [[? _]|[(_ & ? & _)|(_ & p' & id & [= <-] & Hid' & ->)]];
      [done..|].
    rewrite Hid in Hid'. injection Hid' as <-. simpl. apply lookup_insert_eq. }
  assert (∀ a' evs b,
            resolved fuel rt args w a' evs →
            should_skip rt (cache_path args) a' (play w evs) = (Ret b, play w evs) →
            b = bool_decide (c = pretty n)) as Hguard.
  { intros a' evs b (_ & Hsel' & _ & Hevs) Hskip.
    rewrite Hsel in Hsel'. injection Hsel' as <-.
    apply before_download_net_or_out in Hevs.
    rewrite Hcf, (should_skip_cached _ _ _ _ _ _ _ _ Hid Hp Hevs) in Hskip. congruence. }
  destruct Hmain as [r evs Hr Hevs|a' evs Hres Hskip|a' evs url f r w' Hres Hskip Hurl Hf Hdl Hr
                    |a' evs url f w' r Hres Hskip Hurl Hf Hdl Hrec Hr
                    |a' evs url f w1 w2 Hres Hskip Hurl Hf Hdl Hrec].
  - exists evs. split; [done|]. split; [done|]. split; [|done]. intros _.
    split; [done|]. by eapply net_or_out_fs, before_download_net_or_out.
  - apply Hguard in Hskip; [|done]. symmetry in Hskip. apply bool_decide_eq_true in Hskip.
    destruct Hres as (_ & _ & _ & Hevs).
    pose proof (before_download_print _ _ _ _ _ _ Hevs (hit_message_printed args)) as Hall.
    exists (evs ++ hit_message args). split; [done|]. split; [done|]. split; [|done].
    intros _. split; [done|]. by eapply net_or_out_fs, before_download_net_or_out.
  - apply Hguard in Hskip; [|done]. symmetry in Hskip. apply bool_decide_eq_false in Hskip.
    destruct (download_file_events _ _ _ _ _ _ _ _ Hdl) as (evsd & -> & _).
    eexists. rewrite play_app. split; [done|]. split; [|by split].
    intros _. by destruct r.
  - apply Hguard in Hskip; [|done]. symmetry in Hskip. apply bool_decide_eq_false in Hskip.
    destruct (download_file_events _ _ _ _ _ _ _ _ Hdl) as (evsd & -> & _).
    eexists. rewrite play_app. split; [done|]. split; [done|]. by split.
  - apply Hguard in Hskip; [|done]. symmetry in Hskip. apply bool_decide_eq_false in Hskip.
    destruct (download_file_ret _ _ _ _ _ _ _ _ Hdl) as (_ & u & res & evsl & _ & _ & _ & _ & Hw1 & _).
    assert (a' = a) as ->.
    { destruct Hres as (_ & Hs & _). rewrite Hsel in Hs. by injection Hs. }
    rewrite Hcf in Hrec. pose proof (Hrecord _ _ Hrec) as Hstored.
    assert (fs (play w2 (done_message rt args f)) !! p = Some (File (pretty n))) as Hfinal.
    { rewrite <- Hstored. apply play_untouched. unfold done_message.
      destruct (arg_verbose args); by repeat constructor. }
    destruct (record_cases _ _ _ _ _ _ Hrec) as [[? _]|[(_ & ? & _)|(_ & p' & id & _ & _ & Hw2)]];
      [done..|].
    assert (∃ evs', play w2 (done_message rt args f) = play w evs' ∧ In (EvOpenWb f) evs')
      as (evs' & Heq & Hin).
    { subst w1 w2. rewrite !play_app. eexists. split; [done|].
      rewrite !in_app_iff. simpl. auto 10. }
    exists evs'. split; [done|]. split; [|by split].
    intros _ _. split; [by exists f|done].
Qed.

Lemma cache_guard_invariant_witness :
  fs (snd (main 2 Toy.rt ToyRuns.args_cache (ToyRuns.cached "5"))) !! "last_id"
  = Some (File (pretty 7)).
Proof.
  destruct (cache_guard_invariant 2 Toy.rt ToyRuns.args_cache (ToyRuns.cached "5") (Ret tt)
              (snd (main 2 Toy.rt ToyRuns.args_cache (ToyRuns.cached "5")))
              Toy.docs 7 "last_id" "5") as (evs & _ & Hmiss & _).
  - vm_compute. reflexivity.
  - vm_compute. reflexivity.
  - reflexivity.
  - reflexivity.
  - reflexivity.
  - apply Hmiss; [|reflexivity]. vm_compute. discriminate.
Defined.

(** ** The exit status and the printed path (C7) *)

(** What a run has written to standard output. *)
Definition stdout_of (evs : list event) : list string :=
  omap (λ e, match e with EvStdout s => Some s | _ => None end) evs.




(** ** The scenarios of the specification, run in the toy world *)

(** No workflow filter, no artifact filter, no cache file yet: the first
    artifact of the listing, number 7, is downloaded to [docs.zip], the
    cache file then holds [7], and the resolved path is all the output. *)
Example scenario_first_download :
  let r := script 2 Toy.rt ToyRuns.args_cache Toy.w0 in
  fst r = Some 0
  ∧ fs (snd r) = {["docs.zip" := File "zip"; "last_id" := File "7"]}
  ∧ stdout_of (trace (snd r)) = ["/home/ci/docs.zip" +:+ newline].
Proof.
  cbv zeta. split; [|split].
  - vm_compute. reflexivity.
  - vm_compute. reflexivity.
  - vm_compute. reflexivity.
Qed.

(** The same with the cache file holding [7]: one request to list the
    artifacts, no download, no write, success. *)
Example scenario_cache_hit :
  script 2 Toy.rt ToyRuns.args_cache (ToyRuns.cached "7")
  = (Some 0, add_events (ToyRuns.cached "7") (requests Toy.hdrs ToyArtifacts.pages)).
Proof. vm_compute. reflexivity. Qed.

(** Two runs in a row: the second finds the identifier the first has
    recorded and leaves the files alone. *)
Example scenario_twice :
  let w1 := snd (script 2 Toy.rt ToyRuns.args_cache Toy.w0) in
  let r2 := script 2 Toy.rt ToyRuns.args_cache w1 in
  fst r2 = Some 0
  ∧ fs (snd r2) = fs w1
  ∧ trace (snd r2) = trace w1 ++ requests Toy.hdrs ToyArtifacts.pages.
Proof.
  cbv zeta. split; [|split].
  - vm_compute. reflexivity.
  - vm_compute. reflexivity.
  - vm_compute. reflexivity.
Qed.

(** Workflow [CI] on a branch that has no successful run: the Run Selector
    answers [None], the pipeline reports the error and exits with status
    1, having requested the two pages of runs and nothing else. *)
Example scenario_no_run :
  let args := {| arg_repository := "acme/widget"; arg_token := Some "t0ken";
                 arg_artifact := None; arg_filename := None; arg_workflow := Some "CI";
                 arg_branch := Some "release"; arg_cache_file := None;
                 arg_traceback := false; arg_verbose := false |} in
  script 3 Toy.rt args Toy.w0
  = (Some 1,
     add_events Toy.w0
       (requests (make_headers "t0ken") Toy.runs_pages
        ++ [EvStderrError (RuntimeError "No successful workflow run found")])).
Proof. vm_compute. reflexivity. Qed.

(** Workflow [CI] on [main], verbose: the run is found on the second page,
    its artifacts are listed, the first one is downloaded with two
    progress markers for its one chunk. *)
Example scenario_workflow_verbose :
  let args := {| arg_repository := "acme/widget"; arg_token := None;
                 arg_artifact := Some "docs"; arg_filename := Some "out.zip";
                 arg_workflow := Some "CI"; arg_branch := Some "main";
                 arg_cache_file := None; arg_traceback := false; arg_verbose := true |} in
  let r := script 3 Toy.rt args Toy.w0 in
  fst r = Some 0
  ∧ fs (snd r) !! "out.zip" = Some (File "zip")
  ∧ stdout_of (trace (snd r))
    = ["Successful run found: push on main, CI started on: 2021-03-01T10:00:00Z" +:+ newline;
       "Artifact found: docs (3 bytes), created on: 2021-03-01T10:05:00Z" +:+ newline;
       "Downloading https://api.github.com/zip/7" +:+ newline;
       "."; "."; newline;
       "File downloaded to out.zip" +:+ newline;
       "/home/ci/out.zip" +:+ newline].
Proof.
  cbv zeta. split; [|split].
  - vm_compute. reflexivity.
  - vm_compute. reflexivity.
  - vm_compute. reflexivity.
Qed.

(** * Further properties of the script *)

(** ** The pagination link: [rel_next_link], lines 143 to 147 *)

Fixpoint no_gt (s : string) : bool :=
  match s with
  | EmptyString => true
  | String c r => negb (Ascii.eqb c ">") && no_gt r
  end.

(** A [rel="next"] entry for [u] in a header: [<u>], a semicolon, one
    whitespace character and [rel="next"], with anything around it. *)
Definition next_entry (links u : string) : Prop :=
  ∃ pre c post,
    links = pre +:+ String "<" (u +:+ String ">" (String ";" (String c (rel_next +:+ post))))
    ∧ is_space c = true.

Lemma match_here_cons c r :
  match_here (String c r)
  = if Ascii.eqb c "<"
    then
      let '(g, rest) := span_not_gt r in
      match g, rest with
      | String _ _, String c1 (String c2 (String c3 rest')) =>
          if Ascii.eqb c1 ">" && Ascii.eqb c2 ";" && is_space c3 && String.prefix rel_next rest'
          then Some g else None
      | _, _ => None
      end
    else None.
Proof.
  destruct c as [[] [] [] [] [] [] [] []]; try reflexivity.
  simpl. destruct (span_not_gt r) as [g rest].
  destruct g as [|g0 g]; [reflexivity|].
  destruct rest as [|c1 [|c2 [|c3 rest]]].
  - reflexivity.
  - destruct c1 as [[] [] [] [] [] [] [] []]; reflexivity.
  - destruct c1 as [[] [] [] [] [] [] [] []]; try reflexivity.
    destruct c2 as [[] [] [] [] [] [] [] []]; reflexivity.
  - destruct c1 as [[] [] [] [] [] [] [] []]; try reflexivity.
    destruct c2 as [[] [] [] [] [] [] [] []]; reflexivity.
Qed.

Lemma span_not_gt_spec s g rest :
  span_not_gt s = (g, rest) → s = g +:+ rest ∧ no_gt g = true.
Proof.
  revert g rest. induction s as [|c r IH]; intros g rest; simpl.
  - by intros [= <- <-].
  - destruct (Ascii.eqb c ">") eqn:Hc; [by intros [= <- <-]|].
    destruct (span_not_gt r) as [g' rest']. intros [= <- <-].
    destruct (IH _ _ eq_refl) as [-> Hg]. rewrite append_cons. simpl. by rewrite Hc.
Qed.

Lemma span_not_gt_stop g r :
  no_gt g = true → span_not_gt (g +:+ String ">" r) = (g, String ">" r).
Proof.
  induction g as [|c g IH]; [intros _; reflexivity|]. rewrite append_cons. simpl.
  destruct (Ascii.eqb c ">"); simpl; [discriminate|]. intros Hg. by rewrite IH.
Qed.

Lemma prefix_split p s : String.prefix p s = true → ∃ post, s = p +:+ post.
Proof.
  revert s. induction p as [|a p IH]; intros s; [by exists s|].
  destruct s as [|b s]; simpl; [discriminate|].
  destruct (ascii_dec a b) as [->|]; [|discriminate].
  intros (post & ->)%IH. by exists post.
Qed.

Lemma prefix_append p post : String.prefix p (p +:+ post) = true.
Proof.
  induction p as [|a p IH]; [by destruct post|].
  rewrite append_cons. simpl. by destruct (ascii_dec a a).
Qed.

Lemma match_here_sound s g :
  match_here s = Some g →
  g ≠ "" ∧ no_gt g = true
  ∧ ∃ c post, s = String "<" (g +:+ String ">" (String ";" (String c (rel_next +:+ post))))
              ∧ is_space c = true.
Proof.
  destruct s as [|c0 r]; [done|]. rewrite match_here_cons.
  destruct (Ascii.eqb c0 "<") eqn:Hc0; [|done]. apply Ascii.eqb_eq in Hc0 as ->.
  destruct (span_not_gt r) as [g' rest] eqn:Hspan.
  apply span_not_gt_spec in Hspan as [-> Hg].
  destruct g' as [|g0 g']; [done|].
  destruct rest as [|c1 [|c2 [|c3 rest]]]; try done.
  destruct (Ascii.eqb c1 ">") eqn:H1; [|done]. apply Ascii.eqb_eq in H1 as ->.
  destruct (Ascii.eqb c2 ";") eqn:H2; [|done]. apply Ascii.eqb_eq in H2 as ->.
  destruct (is_space c3) eqn:H3; [|done].
  destruct (String.prefix rel_next rest) eqn:Hp; [|done].
  apply prefix_split in Hp as [post ->].
  intros [= <-]. split; [done|]. split; [done|]. by exists c3, post.
Qed.

Lemma match_here_complete g c post :
  g ≠ "" → no_gt g = true → is_space c = true →
  match_here (String "<" (g +:+ String ">" (String ";" (String c (rel_next +:+ post)))))
  = Some g.
Proof.
  intros Hne Hg Hc. rewrite match_here_cons. simpl.
  rewrite (span_not_gt_stop _ _ Hg). destruct g as [|g0 g]; [done|].
  simpl. by rewrite Hc, prefix_append.
Qed.

Lemma re_search_cons a r :
  re_search (String a r)
  = match match_here (String a r) with Some g => Some g | None => re_search r end.
Proof. reflexivity. Qed.

Lemma re_search_sound s g :
  re_search s = Some g → g ≠ "" ∧ no_gt g = true ∧ next_entry s g.
Proof.
  induction s as [|a r IH].
  - simpl. done.
  - rewrite re_search_cons.
    destruct (match_here (String a r)) as [g'|] eqn:Hm.
    + intros [= ->]. apply match_here_sound in Hm as (Hne & Hg & c & post & Hs & Hc).
      split; [done|]. split; [done|]. exists "", c, post. by rewrite Hs.
    + intros (Hne & Hg & pre & c & post & -> & Hc)%IH.
      split; [done|]. split; [done|]. by exists (String a pre), c, post.
Qed.

Lemma re_search_complete pre s g :
  match_here s = Some g → is_Some (re_search (pre +:+ s)).
Proof.
  intros Hm. induction pre as [|a pre IH].
  - change ("" +:+ s) with s. destruct s as [|a r]; [done|].
    rewrite re_search_cons, Hm. eauto.
  - rewrite append_cons, re_search_cons.
    by destruct (match_here (String a (pre +:+ s))).
Qed.

(** X1.  The URL [rel_next_link] returns is the URL of a [rel="next"]
    entry of the response's link header; it is not empty and holds no
    [>]. *)
Theorem rel_next_link_sound res u :
  rel_next_link res = Some u →
  u ≠ "" ∧ no_gt u = true ∧ ∃ links, link res = Some links ∧ next_entry links u.
Proof.
  unfold rel_next_link. intros (Hne & Hg & Hentry)%re_search_sound.
  split; [done|]. split; [done|].
  destruct (link res) as [links|]; [by exists links|].
  destruct Hentry as (pre & c & post & Hs & _). by destruct pre.
Qed.

Lemma rel_next_link_sound_witness :
  ∃ links, Some Toy.next_link = Some links ∧ next_entry links Toy.runs_url_2.
Proof.
  destruct (rel_next_link_sound {| link := Some Toy.next_link; body := ""; complete := true |}
              Toy.runs_url_2) as (_ & _ & H).
  - reflexivity.
  - exact H.
Defined.

(** X2.  [rel_next_link] returns a URL exactly when the response has a
    link header holding a [rel="next"] entry for a non-empty URL without
    [>]; without a link header it returns [None]. *)
Theorem rel_next_link_some res :
  (is_Some (rel_next_link res)
   ↔ ∃ links u, link res = Some links ∧ next_entry links u ∧ u ≠ "" ∧ no_gt u = true)
  ∧ (link res = None → rel_next_link res = None).
Proof.
  split; [split|].
  - intros [u (Hne & Hg & links & Hl & He)%rel_next_link_sound]. by exists links, u.
  - intros (links & u & Hl & (pre & c & post & -> & Hc) & Hne & Hg).
    unfold rel_next_link. rewrite Hl. simpl.
    eapply re_search_complete. by apply match_here_complete.
  - unfold rel_next_link. by intros ->.
Qed.

Lemma rel_next_link_some_witness :
  is_Some (rel_next_link {| link := Some Toy.next_link; body := ""; complete := true |}).
Proof.
  apply (rel_next_link_some {| link := Some Toy.next_link; body := ""; complete := true |}).
  exists Toy.next_link, Toy.runs_url_2. split; [reflexivity|]. split; [|split].
  - exists "", " "%char, ", <https://api.github.com/repos/acme/widget/actions/runs?per_page=50&page=2>; rel=last".
    split; reflexivity.
  - discriminate.
  - reflexivity.
Defined.

(** X3.  The generator goes on exactly when there is a next link: the
    test [if not url] never drops a URL [rel_next_link] has found.  After
    a page whose response has no next link [next()] stops without a
    request; after one that has, it requests that link. *)
Theorem get_paged_follows_link rt h res :
  (rel_next_link res = None → ∀ w, get_paged_next rt h (GenYielded res) w = (Ret (None, GenDone), w))
  ∧ (∀ u, rel_next_link res = Some u →
          get_paged_next rt h (GenYielded res) = fetch_page rt h u
          ∧ gen_target (GenYielded res) = Some u).
Proof.
  split.
  - intros Hn w. simpl. by rewrite Hn.
  - intros u Hu. pose proof (rel_next_link_sound _ _ Hu) as (Hne & _).
    simpl. rewrite Hu. simpl. by destruct u.
Qed.

Lemma get_paged_follows_link_witness :
  gen_target (GenYielded {| link := Some Toy.next_link; body := ""; complete := true |})
  = Some Toy.runs_url_2.
Proof.
  destruct (get_paged_follows_link Toy.rt Toy.hdrs
              {| link := Some Toy.next_link; body := ""; complete := true |}) as [_ H].
  apply (H Toy.runs_url_2). reflexivity.
Defined.

(** ** Pages that fail, and pages that never end: [get_paged], lines 134 to 140 *)

(** The request for [url] fails with [e]: [urlopen] raises [e], or the
    body breaks off, or it is not JSON text. *)
Definition page_fails (rt : runtime) (h : list (string * string)) (url : string) (e : exn)
  : Prop :=
  net rt {| req_url := url; req_headers := h |} = inl e
  ∨ (∃ res, net rt {| req_url := url; req_headers := h |} = inr res
            ∧ complete res = false ∧ e = HTTPException)
  ∨ (∃ res, net rt {| req_url := url; req_headers := h |} = inr res
            ∧ complete res = true ∧ json_loads rt (body res) = None ∧ e = ValueError).

Lemma fetch_page_fails rt h url e w :
  page_fails rt h url e →
  fetch_page rt h url w
  = (Exc e, add_events w [EvRequest {| req_url := url; req_headers := h |}]).
Proof.
  unfold fetch_page, urlopen, bind, lift, res_read_all. simpl.
  intros [Hnet|[(res & Hnet & Hc & ->)|(res & Hnet & Hc & Hj & ->)]]; rewrite Hnet; simpl.
  - done.
  - by rewrite Hc.
  - rewrite Hc. simpl. by rewrite Hj.
Qed.

(** Pages on which the loop body finds nothing are passed over, one
    request each. *)
Lemma for_paged_skip {A} rt h (body : pyval → outcome (option A)) g ups g' :
  gen_yields rt h g ups g' →
  fst (scan_pages body (map snd ups)) = Ret None →
  ∀ fuel w,
    for_paged (length ups + fuel) rt h g body w
    = for_paged fuel rt h g' body (add_events w (requests h ups)).
Proof.
  induction 1 as [g|g url res page ups g' Ht Hnet Hc Hj Hy IH]; intros Hscan fuel w.
  - by rewrite add_events_nil.
  - simpl in *. unfold bind at 1.
    rewrite (get_paged_next_target _ _ _ _ Ht), (fetch_page_ok _ _ _ _ _ _ Hnet Hc Hj).
    unfold bind, lift.
    destruct (body page) as [[v|]| |] eqn:Hb; simpl in Hscan; try discriminate.
    rewrite IH; [by rewrite add_events_app|].
    by destruct (scan_pages body (map snd ups)).
Qed.



Lemma for_paged_fails {A} rt h (body : pyval → outcome (option A)) g ups g' url e fuel w :
  gen_yields rt h g ups g' →
  fst (scan_pages body (map snd ups)) = Ret None →
  gen_target g' = Some url →
  page_fails rt h url e →
  (length ups < fuel)%nat →
  for_paged fuel rt h g body w
  = (Exc e, add_events w (requests h ups ++ [EvRequest {| req_url := url; req_headers := h |}])).
Proof.
  intros Hy Hscan Ht Hfail Hfuel.
  replace fuel with (length ups + S (fuel - S (length ups)))%nat by lia.
  rewrite (for_paged_skip _ _ _ _ _ _ Hy Hscan). simpl. unfold bind at 1.
  rewrite (get_paged_next_target _ _ _ _ Ht), (fetch_page_fails _ _ _ _ _ Hfail).
  by rewrite add_events_app.
Qed.

(** X4.  A page that cannot be fetched ends the selection with the
    failure itself: when the pages before it hold no match and the next
    request fails (the connection, the transfer of the body, or its
    decoding), both selectors raise that exception, after one request per
    page and no second attempt. *)
Theorem page_failure_propagates fuel rt repo h w :
  (∀ name branch ups g' url e,
      gen_yields rt h (GenStart (runs_url repo)) ups g' →
      fst (scan_pages (scan_runs name branch) (map snd ups)) = Ret None →
      gen_target g' = Some url →
      page_fails rt h url e →
      (length ups < fuel)%nat →
      find_latest_successful_workflow_run fuel rt repo name branch h w
      = (Exc e,
         add_events w (requests h ups ++ [EvRequest {| req_url := url; req_headers := h |}])))
  ∧ (∀ sc name ups g' url e,
      gen_yields rt h (GenStart (artifacts_url rt repo sc)) ups g' →
      fst (scan_pages (scan_artifacts name) (map snd ups)) = Ret None →
      gen_target g' = Some url →
      page_fails rt h url e →
      (length ups < fuel)%nat →
      find_artifact fuel rt repo sc name h w
      = (Exc e,
         add_events w (requests h ups ++ [EvRequest {| req_url := url; req_headers := h |}]))).
Proof.
  split.
  - intros name branch ups g' url e Hy Hscan Ht Hfail Hfuel.
    unfold find_latest_successful_workflow_run, bind, get_paged. fold (runs_url repo).
    by rewrite (for_paged_fails _ _ _ _ _ _ _ _ _ _ Hy Hscan Ht Hfail Hfuel).
  - intros sc name ups g' url e Hy Hscan Ht Hfail Hfuel.
    rewrite find_artifact_unfold. unfold bind.
    by rewrite (for_paged_fails _ _ _ _ _ _ _ _ _ _ Hy Hscan Ht Hfail Hfuel).
Qed.

Lemma page_failure_propagates_witness :
  find_artifact 1 Toy.rt "acme/gadget" RepoScope None Toy.hdrs Toy.w0
  = (Exc URLError,
     add_events Toy.w0
       [EvRequest {| req_url := artifacts_url Toy.rt "acme/gadget" RepoScope;
                     req_headers := Toy.hdrs |}]).
Proof.
  destruct (page_failure_propagates 1 Toy.rt "acme/gadget" Toy.hdrs Toy.w0) as [_ H].
  apply (H RepoScope None [] (GenStart (artifacts_url Toy.rt "acme/gadget" RepoScope))).
  - apply gen_yields_nil.
  - reflexivity.
  - reflexivity.
  - left. reflexivity.
  - simpl. lia.
Defined.



(** A server whose only page of artifacts is empty and names itself as the
    next page. *)
Module ToyLoop.

Definition self : string := artifacts_url Toy.rt "acme/widget" RepoScope.

Definition res : response :=
  {| link := Some ("<" +:+ self +:+ ">; " +:+ rel_next); body := "none"; complete := true |}.

Definition rt : runtime :=
  {| net := λ r, if String.eqb (req_url r) self then inr res else inl URLError;
     json_loads := λ text,
       if String.eqb text "none" then Some (PDict [("artifacts", PList [])]) else None;
     repr_container := repr_container Toy.rt;
     resolve := resolve Toy.rt;
     GITHUB_TOKEN := GITHUB_TOKEN Toy.rt |}.


End ToyLoop.


(** ** The token and the request headers: [main], lines 42 to 49 *)

(** [args.token or os.environ.get('GITHUB_TOKEN')], in words: the option
    when it is a non-empty string, the environment variable otherwise. *)
Definition token_of (args : Args) (rt : runtime) : string :=
  match arg_token args with
  | Some (String c t) => String c t
  | _ => default "" (GITHUB_TOKEN rt)
  end.

(** The event is no request, or a request with the headers [h]. *)
Definition sends (h : list (string * string)) (e : event) : Prop :=
  match e with
  | EvRequest r => req_headers r = h
  | _ => True
  end.

Section Sends.
Context (h : list (string * string)).

Lemma sends_urlopen rt url : emits (sends h) (urlopen rt {| req_url := url; req_headers := h |}).
Proof.
  unfold urlopen. apply emits_bind; [by apply emits_emit|]. intros _.
  destruct (net rt _); [apply emits_raise|apply emits_ret].
Qed.

Lemma sends_fetch_page rt url : emits (sends h) (fetch_page rt h url).
Proof.
  unfold fetch_page. apply emits_bind; [apply sends_urlopen|]. intros res.
  apply emits_bind; [apply emits_lift|]. intros text.
  destruct (json_loads rt text); [apply emits_ret|apply emits_raise].
Qed.

Lemma sends_for_paged {A} fuel rt g (body : pyval → outcome (option A)) :
  emits (sends h) (for_paged fuel rt h g body).
Proof.
  revert g. induction fuel as [|fuel IH]; intros g; simpl; [apply emits_out_of_fuel|].
  apply emits_bind.
  - destruct g as [url|res|]; simpl; [apply sends_fetch_page| |apply emits_ret].
    destruct (opt_truthy (rel_next_link res)); [apply sends_fetch_page|apply emits_ret].
  - intros [[page|] g']; [|apply emits_ret].
    apply emits_bind; [apply emits_lift|]. intros [v|]; [apply emits_ret|apply IH].
Qed.

Lemma sends_select_artifact fuel rt args : emits (sends h) (select_artifact fuel rt args h).
Proof.
  unfold select_artifact, find_latest_repo_artifact, find_workflow_run_artifact,
    find_latest_successful_workflow_run.
  destruct (opt_truthy (arg_workflow args)).
  - apply emits_bind.
    { apply emits_bind; [apply sends_for_paged|]. intros r. apply emits_ret. }
    intros run. destruct (negb (py_truthy run)); [apply emits_raise|].
    apply emits_bind.
    + apply emits_when. intros _.
      repeat (apply emits_bind; [apply emits_lift|]; intros ?). by apply emits_emit.
    + intros _. apply emits_bind; [apply emits_lift|]. intros run_id.
      apply emits_bind; [apply sends_for_paged|]. intros r. apply emits_ret.
  - apply emits_bind; [apply sends_for_paged|]. intros r. apply emits_ret.
Qed.

Lemma sends_download_file rt url filename verbose :
  emits (sends h) (download_file rt url filename h verbose).
Proof.
  intros w o w'. destruct url as [| | |u| |];
    try (intros [= <- <-]; exists []; by rewrite play_nil).
  rewrite download_file_run.
  destruct (net rt _) as [e|res].
  { intros [= <- <-]. eexists. split; [done|]. by repeat constructor. }
  assert (Forall (sends h) (snd (loop_run (S (String.length (body res))) res filename verbose)))
    as Hloop.
  { eapply Forall_impl; [apply loop_run_events|]. by intros e [->|[c ->]]. }
  destruct (fs w !! filename) as [[c|]|].
  2: { intros [= <- <-]. eexists. split; [done|]. by repeat constructor. }
  all: destruct (fst (loop_run _ res filename verbose)) as [[]| |];
    intros [= <- <-]; eexists; (split; [done|]);
    repeat (constructor; [done|]); try done;
    apply Forall_app; (split; [done|]); destruct verbose; by repeat constructor.
Qed.

End Sends.

Lemma emits_should_skip P rt cache_file a : emits P (should_skip rt cache_file a).
Proof.
  intros w o w' H. pose proof (should_skip_world rt cache_file a w) as Hw.
  rewrite H in Hw. simpl in Hw. subst w'. exists []. by rewrite play_nil.
Qed.

Lemma emits_record P rt cache_file a :
  (∀ p s, P (EvWriteText p s)) → emits P (record rt cache_file a).
Proof.
  intros HP w o w' [[_ ->]|[(_ & _ & ->)|(_ & p & id & _ & _ & ->)]]%record_cases.
  - exists []. by rewrite play_nil.
  - exists []. by rewrite play_nil.
  - eexists. split; [done|]. by repeat constructor.
Qed.

Lemma sends_main fuel rt args :
  emits (sends (make_headers (default "" (py_or (arg_token args) (GITHUB_TOKEN rt)))))
    (main fuel rt args).
Proof.
  unfold main. destruct (negb (opt_truthy _)); [apply emits_raise|].
  apply emits_bind; [apply sends_select_artifact|]. intros a.
  destruct (negb (py_truthy a)); [apply emits_raise|].
  apply emits_bind.
  { apply emits_when. intros _.
    repeat (apply emits_bind; [apply emits_lift|]; intros ?). by apply emits_emit. }
  intros _. apply emits_bind; [apply emits_should_skip|]. intros [].
  { apply emits_when. intros _. by apply emits_emit. }
  unfold fetch_and_record.
  apply emits_bind; [apply emits_lift|]. intros url.
  apply emits_bind; [apply emits_when; intros _; by apply emits_emit|]. intros _.
  apply emits_bind; [apply emits_lift|]. intros filename.
  apply emits_bind; [apply sends_download_file|]. intros _.
  apply emits_bind; [by apply emits_record|]. intros _.
  apply emits_bind; [apply emits_when; intros _; by apply emits_emit|]. intros _.
  by apply emits_emit.
Qed.

Lemma token_of_py_or args rt :
  opt_truthy (py_or (arg_token args) (GITHUB_TOKEN rt)) = true →
  default "" (py_or (arg_token args) (GITHUB_TOKEN rt)) = token_of args rt.
Proof.
  unfold py_or, token_of. destruct (arg_token args) as [[|c t]|]; simpl; try done.
Qed.

(** X6.  Without a token, neither [--token] nor [GITHUB_TOKEN] holding a
    non-empty string, [main] raises before it does anything.  Otherwise
    every request of the run, for a listing or for the download, carries
    the same two headers: [Accept], and [Authorization] with the token,
    which is the [--token] option when that is a non-empty string and the
    environment variable when it is not. *)
Theorem main_token_headers fuel rt args w :
  (opt_truthy (arg_token args) = false → opt_truthy (GITHUB_TOKEN rt) = false →
   main fuel rt args w
   = (Exc (RuntimeError "Please specify a GitHub personal access token"), w))
  ∧ (∀ r w',
      main fuel rt args w = (r, w') →
      ∃ evs,
        w' = play w evs
        ∧ ∀ rq, In (EvRequest rq) evs →
                req_headers rq
                = [("Accept", "application/vnd.github.v3+json");
                   ("Authorization", "token " +:+ token_of args rt)]).
Proof.
  split.
  - intros Ha Hv. unfold main, py_or. rewrite Ha, Hv. reflexivity.
  - intros r w' Hmain.
    destruct (sends_main _ _ _ _ _ _ Hmain) as (evs & -> & Hevs).
    exists evs. split; [done|]. intros rq Hin.
    destruct (opt_truthy (py_or (arg_token args) (GITHUB_TOKEN rt))) eqn:Htok.
    + rewrite (token_of_py_or _ _ Htok) in Hevs.
      rewrite Forall_forall in Hevs. apply (Hevs (EvRequest rq)).
      by apply list_elem_of_In.
    + unfold main in Hmain. rewrite Htok in Hmain. simpl in Hmain.
      injection Hmain as _ Hw. apply (f_equal trace) in Hw. simpl in Hw.
      rewrite <- (app_nil_r (trace w)) in Hw at 1. apply app_inv_head in Hw.
      subst evs. destruct Hin.
Qed.

Lemma main_token_headers_witness :
  ∃ evs,
    snd (main 2 Toy.rt ToyRuns.args_cache Toy.w0) = play Toy.w0 evs
    ∧ ∀ rq, In (EvRequest rq) evs →
            req_headers rq
            = [("Accept", "application/vnd.github.v3+json");
               ("Authorization", "token s3cret")].
Proof.
  destruct (main_token_headers 2 Toy.rt ToyRuns.args_cache Toy.w0) as [_ H].
  apply (H (fst (main 2 Toy.rt ToyRuns.args_cache Toy.w0))).
  apply surjective_pairing.
Defined.

(** ** Nothing found: [main], lines 53 to 67, and the [__main__] block *)

Lemma pages_scanned_none (p : pyval → bool) ls :
  existsb p (concat ls) = false → pages_scanned p ls = length ls.
Proof.
  induction ls as [|l ls IH]; simpl; [done|].
  rewrite existsb_app. intros [Hl Hls]%orb_false_iff. rewrite Hl. by rewrite IH.
Qed.

Lemma selector_none rt h url key sel (p : pyval → bool) ups g' ls fuel w :
  gen_yields rt h (GenStart url) ups g' →
  gen_exhausted g' →
  Forall2 (λ up l, page_records key (snd up) = Some l) ups ls →
  Forall (λ x, sel x = Ret (p x)) (concat ls) →
  existsb p (concat ls) = false →
  (length ups < fuel)%nat →
  for_paged fuel rt h (GenStart url) (select_in key sel) w
  = (Ret None, add_events w (requests h ups)).
Proof.
  intros Hy Hex Hrec Hsel Hnone Hfuel.
  rewrite (selector_first_match _ _ _ _ _ p _ _ _ _ _ Hy Hrec Hsel (or_intror Hex) Hfuel).
  rewrite (pages_scanned_none _ _ Hnone), <- (Forall2_length _ _ _ Hrec), firstn_all.
  rewrite find_existsb in Hnone. by destruct (find p (concat ls)).
Qed.

(** The last event of a run that fails: the traceback, or the one-line
    message. *)
Definition report (args : Args) (e : exn) : event :=
  if arg_traceback args then EvTraceback e else EvStderrError e.

Lemma script_exc fuel rt args w e w' :
  main fuel rt args w = (Exc e, w') →
  script fuel rt args w = (Some 1, add_events w' [report args e]).
Proof. unfold script, report. intros ->. by destruct (arg_traceback args). Qed.

(** X7.  Finding nothing is a failure of the whole run.  With a workflow
    asked for and a listing of runs that ends without a match, the process
    reports [No successful workflow run found] and exits with status 1,
    having requested the pages of runs and no listing of artifacts.
    Without a workflow, a listing of artifacts that ends without a match
    makes it report [Artifact not found!] and exit with status 1.  No
    download is started and no file is written in either case. *)
Theorem not_found_is_fatal fuel rt args w :
  let h := [("Accept", "application/vnd.github.v3+json");
            ("Authorization", "token " +:+ token_of args rt)] in
  opt_truthy (py_or (arg_token args) (GITHUB_TOKEN rt)) = true →
  (opt_truthy (arg_workflow args) = true →
   ∀ ups g' ls,
     gen_yields rt h (GenStart (runs_url (arg_repository args))) ups g' →
     gen_exhausted g' →
     Forall2 (λ up l, page_records "workflow_runs" (snd up) = Some l) ups ls →
     Forall (λ r, run_record r = true) (concat ls) →
     existsb (run_matches (arg_workflow args) (arg_branch args)) (concat ls) = false →
     (length ups < fuel)%nat →
     script fuel rt args w
     = (Some 1,
        add_events w (requests h ups
                      ++ [report args (RuntimeError "No successful workflow run found")])))
  ∧ (opt_truthy (arg_workflow args) = false →
     ∀ ups g' ls,
       gen_yields rt h (GenStart (artifacts_url rt (arg_repository args) RepoScope)) ups g' →
       gen_exhausted g' →
       Forall2 (λ up l, page_records "artifacts" (snd up) = Some l) ups ls →
       (arg_artifact args ≠ None → Forall (λ a, artifact_record a = true) (concat ls)) →
       existsb (artifact_matches (arg_artifact args)) (concat ls) = false →
       (length ups < fuel)%nat →
       script fuel rt args w
       = (Some 1,
          add_events w (requests h ups ++ [report args (RuntimeError "Artifact not found!")]))).
Proof.
  intros h Htok. pose proof (token_of_py_or _ _ Htok) as Hh. split.
  - intros Hwf ups g' ls Hy Hex Hrec Hok Hnone Hfuel.
    rewrite <- add_events_app. apply script_exc.
    unfold main. rewrite Htok. simpl. unfold bind at 1, select_artifact. rewrite Hwf.
    unfold bind at 1, find_latest_successful_workflow_run, bind at 1.
    unfold make_headers. rewrite Hh. fold h.
    rewrite (for_paged_ext _ _ _ _ _ _ _ (scan_runs_select _ _)).
    unfold get_paged. fold (runs_url (arg_repository args)).
    by rewrite (selector_none _ _ _ _ _ _ _ _ _ _ _ Hy Hex Hrec
                  (run_selector_test _ _ _ Hok) Hnone Hfuel).
  - intros Hwf ups g' ls Hy Hex Hrec Hok Hnone Hfuel.
    rewrite <- add_events_app. apply script_exc.
    unfold main. rewrite Htok. simpl. unfold bind at 1, select_artifact. rewrite Hwf.
    change (find_latest_repo_artifact fuel rt (arg_repository args) (arg_artifact args))
      with (find_artifact fuel rt (arg_repository args) RepoScope (arg_artifact args)).
    rewrite find_artifact_unfold. unfold bind at 1.
    unfold make_headers. rewrite Hh. fold h.
    rewrite (for_paged_ext _ _ _ _ _ _ _ (scan_artifacts_select _)).
    rewrite (selector_none _ _ _ _ _ (artifact_matches (arg_artifact args)) _ _ _ _ _
               Hy Hex Hrec); [done| |done..].
    destruct (arg_artifact args) as [n|] eqn:Hn.
    + eapply Forall_impl; [by apply Hok|]. intros a Ha. simpl in Ha.
      by apply artifact_selected_record.
    + by apply Forall_true.
Qed.

Lemma not_found_is_fatal_witness :
  let args := {| arg_repository := "acme/widget"; arg_token := Some "t0ken";
                 arg_artifact := None; arg_filename := None; arg_workflow := Some "CI";
                 arg_branch := Some "release"; arg_cache_file := None;
                 arg_traceback := false; arg_verbose := false |} in
  script 3 Toy.rt args Toy.w0
  = (Some 1,
     add_events Toy.w0
       (requests (make_headers "t0ken") Toy.runs_pages
        ++ [EvStderrError (RuntimeError "No successful workflow run found")])).
Proof.
  intros args.
  destruct (not_found_is_fatal 3 Toy.rt args Toy.w0 eq_refl) as [H _].
  apply (H eq_refl Toy.runs_pages
           (GenYielded {| link := None; body := "runs 2"; complete := true |})
           [[Toy.run_a; Toy.run_b]; [Toy.run_c; Toy.run_d]]).
  - eapply gen_yields_cons; [reflexivity..|].
    eapply gen_yields_cons; [reflexivity..|]. apply gen_yields_nil.
  - reflexivity.
  - repeat constructor.
  - repeat constructor.
  - reflexivity.
  - simpl. lia.
Defined.

(** ** Downloads that fail: [download_file], lines 121 to 131 *)









(** ** What a run touches: [main], lines 41 to 91 *)


Lemma done_message_no_path rt args filename q :
  Forall (λ e, event_path e ≠ Some q) (done_message rt args filename).
Proof. unfold done_message. destruct (arg_verbose args); by repeat constructor. Qed.

(** The events of a run once the download has been started: those up to
    the guard, the message, and the events of the download. *)
Lemma download_stage fuel rt args w a evs url filename o w1 :
  resolved fuel rt args w a evs →
  download_file rt url filename
    (make_headers (default "" (py_or (arg_token args) (GITHUB_TOKEN rt))))
    (arg_verbose args) (play w (evs ++ downloading_message rt args url)) = (o, w1) →
  ∃ evsd,
    w1 = play w ((evs ++ downloading_message rt args url) ++ evsd)
    ∧ Forall (net_or_out (arg_verbose args)) (evs ++ downloading_message rt args url)
    ∧ Forall (download_event filename) evsd.
Proof.
  intros (_ & _ & _ & Hevs) Hdl.
  pose proof (before_download_print _ _ _ _ _ _ Hevs (downloading_message_printed rt args url))
    as Hpre. apply before_download_net_or_out in Hpre.
  destruct (download_file_events _ _ _ _ _ _ _ _ Hdl) as (evsd & -> & Hd & _).
  exists evsd. by rewrite play_app.
Qed.



(** X11.  The only file a run opens for writing is the target, and the
    target is never the empty path: it is the [--filename] option when
    that is a non-empty string, and otherwise the artifact's name, a
    string, or [artifact] when it has none, with [.zip] added.  An empty
    [--filename] counts as none. *)
Theorem destination_name fuel rt args w r evs f :
  main fuel rt args w = (r, play w evs) →
  In (EvOpenWb f) evs →
  f ≠ ""
  ∧ (arg_filename args = Some f
     ∨ (opt_truthy (arg_filename args) = false
        ∧ ∃ a n,
            fst (select_artifact fuel rt args
                   (make_headers (default "" (py_or (arg_token args) (GITHUB_TOKEN rt)))) w) = Ret a
            ∧ py_get a "name" (PStr "artifact") = Ret (PStr n)
            ∧ f = n +:+ ".zip")).
Proof.
  intros Hmain Hin. apply main_cases in Hmain.
  remember (play w evs) as w' eqn:Hw.
  assert (∀ evs', play w evs' = play w evs → evs' = evs) as Hsame.
  { intros evs' Heq. apply (f_equal trace) in Heq. simpl in Heq. by apply app_inv_head in Heq. }
  assert (∀ evs', Forall (net_or_out (arg_verbose args)) evs' → ¬ In (EvOpenWb f) evs') as Hnone.
  { intros evs' Hall Hf. rewrite Forall_forall in Hall.
    apply list_elem_of_In in Hf. by apply Hall in Hf. }
  assert (∀ a g, resolved fuel rt args w a g → ∀ f', target_filename args a = Ret f' →
            f' ≠ ""
            ∧ (arg_filename args = Some f'
               ∨ (opt_truthy (arg_filename args) = false
                  ∧ ∃ a n,
                      fst (select_artifact fuel rt args
                             (make_headers (default "" (py_or (arg_token args) (GITHUB_TOKEN rt)))) w)
                      = Ret a
                      ∧ py_get a "name" (PStr "artifact") = Ret (PStr n)
                      ∧ f' = n +:+ ".zip"))) as Htarget.
  { intros a g (_ & Hsel & _) f'. unfold target_filename.
    destruct (arg_filename args) as [[|c s]|]; simpl.
    - destruct (py_get a "name" (PStr "artifact")) as [[| | |n| |]| |] eqn:Hn; simpl; try done.
      intros [= <-]. split; [by destruct n|]. right. split; [done|]. by exists a, n.
    - intros [= <-]. split; [done|]. by left.
    - destruct (py_get a "name" (PStr "artifact")) as [[| | |n| |]| |] eqn:Hn; simpl; try done.
      intros [= <-]. split; [by destruct n|]. right. split; [done|]. by exists a, n. }
  assert (∀ pre evsd f', Forall (net_or_out (arg_verbose args)) pre →
            Forall (download_event f') evsd → In (EvOpenWb f) (pre ++ evsd) → f = f') as Hopen.
  { intros pre evsd f' Hpre Hd [Hf|Hf]%in_app_or; [by apply Hnone in Hf|].
    rewrite Forall_forall in Hd. apply list_elem_of_In in Hf. by apply Hd in Hf. }
  destruct Hmain as [r evs' Hr Hevs|a evs' Hres Hskip
                    |a evs' url f' r w' Hres Hskip Hurl Hf Hdl Hr
                    |a evs' url f' w' r Hres Hskip Hurl Hf Hdl Hrec Hr
                    |a evs' url f' w1 w2 Hres Hskip Hurl Hf Hdl Hrec].
  - apply Hsame in Hw. subst evs'.
    by apply before_download_net_or_out, Hnone in Hevs.
  - apply Hsame in Hw. subst evs.
    destruct Hres as (_ & _ & _ & Hevs).
    pose proof (before_download_print _ _ _ _ _ _ Hevs (hit_message_printed args)) as Hall.
    by apply before_download_net_or_out, Hnone in Hall.
  - destruct (download_stage _ _ _ _ _ _ _ _ _ _ Hres Hdl) as (evsd & Hw' & Hpre & Hd).
    rewrite Hw' in Hw. apply Hsame in Hw. subst evs.
    rewrite (Hopen _ _ _ Hpre Hd Hin). by eapply Htarget.
  - destruct (download_stage _ _ _ _ _ _ _ _ _ _ Hres Hdl) as (evsd & Hw' & Hpre & Hd).
    rewrite Hw' in Hw. apply Hsame in Hw. subst evs.
    rewrite (Hopen _ _ _ Hpre Hd Hin). by eapply Htarget.
  - destruct (download_stage _ _ _ _ _ _ _ _ _ _ Hres Hdl) as (evsd & Hw' & Hpre & Hd).
    assert (∃ tail, play w2 (done_message rt args f')
                    = play w (((evs' ++ downloading_message rt args url) ++ evsd) ++ tail)
                    ∧ ¬ In (EvOpenWb f) tail) as (tail & Heq & Htail).
    { destruct (record_cases _ _ _ _ _ _ Hrec) as [[? _]|[(_ & _ & ->)|(_ & p & id & _ & _ & ->)]];
        [done| |]; subst w1; rewrite !play_app; eexists; (split; [done|]);
        unfold done_message; destruct (arg_verbose args); simpl; intuition discriminate. }
    rewrite Heq in Hw. apply Hsame in Hw. subst evs.
    apply in_app_or in Hin as [Hin|Hin]; [|done].
    rewrite (Hopen _ _ _ Hpre Hd Hin). by eapply Htarget.
Qed.

Lemma destination_name_witness :
  ∃ evs,
    main 2 Toy.rt ToyRuns.args_cache Toy.w0 = (Ret tt, play Toy.w0 evs)
    ∧ In (EvOpenWb "docs.zip") evs
    ∧ "docs.zip" ≠ "".
Proof.
  eexists (trace (snd (main 2 Toy.rt ToyRuns.args_cache Toy.w0))).
  assert (main 2 Toy.rt ToyRuns.args_cache Toy.w0
          = (Ret tt, play Toy.w0 (trace (snd (main 2 Toy.rt ToyRuns.args_cache Toy.w0)))))
    as Hmain by (vm_compute; reflexivity).
  assert (In (EvOpenWb "docs.zip") (trace (snd (main 2 Toy.rt ToyRuns.args_cache Toy.w0))))
    as Hin by (vm_compute; tauto).
  split; [exact Hmain|]. split; [exact Hin|].
  exact (proj1 (destination_name 2 Toy.rt ToyRuns.args_cache Toy.w0 (Ret tt) _ "docs.zip"
                  Hmain Hin)).
Defined.

(** ** The output of a run without [--verbose] *)

Lemma stdout_of_app evs1 evs2 : stdout_of (evs1 ++ evs2) = stdout_of evs1 ++ stdout_of evs2.
Proof. apply omap_app. Qed.

Lemma stdout_of_quiet evs : Forall (net_or_out false) evs → stdout_of evs = [].
Proof. induction 1 as [|[] evs He _ IH]; simpl; try done. Qed.

Lemma loop_run_quiet fuel res filename :
  stdout_of (snd (loop_run fuel res filename false)) = [].
Proof.
  revert res. induction fuel as [|fuel IH]; intros res; simpl; [done|].
  destruct (res_read (1024 * 8) res) as [[chunk res']| |]; simpl; [|done..].
  destruct (str_truthy chunk); simpl; [|done].
  specialize (IH res'). by destruct (loop_run fuel res' filename false).
Qed.

Lemma download_file_quiet rt url filename h w o w' :
  download_file rt url filename h false w = (o, w') →
  ∃ evs, w' = play w evs ∧ stdout_of evs = []
         ∧ (o = Ret PNone → In (EvOpenWb filename) evs).
Proof.
  destruct url as [| | |u| |];
    try (intros [= <- <-]; exists []; by rewrite play_nil).
  rewrite download_file_run.
  destruct (net rt _) as [e|res]; [intros [= <- <-]; by eexists|].
  pose proof (loop_run_quiet (S (String.length (body res))) res filename) as Hq.
  assert (∀ tail, stdout_of tail = [] →
            stdout_of (EvRequest {| req_url := u; req_headers := h |} :: EvOpenWb filename
                       :: snd (loop_run (S (String.length (body res))) res filename false) ++ tail)
            = []) as Hall.
  { intros tail Htail. change (stdout_of (?a :: ?b :: ?l)) with (stdout_of l).
    by rewrite stdout_of_app, Hq, Htail. }
  destruct (fs w !! filename) as [[c|]|]; [|intros [= <- <-]; by eexists|];
    (destruct (fst (loop_run _ res filename false)) as [[]| |];
     intros [= <- <-]; eexists; (split; [done|]);
     (split; [first [by apply Hall | rewrite <- (app_nil_r (snd _)); by apply Hall]|]);
     (done || (intros _; right; by left))).
Qed.

(** X12.  Without [--verbose] the standard output of the script is the
    path of a file it has downloaded, or nothing: a run that exits with a
    status other than 0 prints nothing there, and a run that exits with 0
    prints the resolved path of the file it has opened as its one line,
    or nothing at all. *)
Theorem quiet_script_stdout fuel rt args w code w' evs :
  arg_verbose args = false →
  script fuel rt args w = (code, w') →
  trace w' = trace w ++ evs →
  stdout_of evs = []
  ∨ (code = Some 0
     ∧ ∃ filename,
         In (EvOpenWb filename) evs
         ∧ stdout_of evs = [resolve rt filename +:+ newline]).
Proof.
  intros Hv Hscript Htrace.
  assert (∀ r w1, main fuel rt args w = (r, w1) →
            ∃ evs1, w1 = play w evs1
                    ∧ (stdout_of evs1 = []
                       ∨ (r = Ret tt
                          ∧ ∃ filename,
                              In (EvOpenWb filename) evs1
                              ∧ stdout_of evs1 = [resolve rt filename +:+ newline]))) as Hmain.
  { intros r w1 Hmain. apply main_cases in Hmain.
    assert (∀ evs', before_download fuel rt args w evs' → stdout_of evs' = []) as Hbefore.
    { intros evs' H%before_download_net_or_out. rewrite Hv in H. by apply stdout_of_quiet. }
    assert (∀ url, downloading_message rt args url = []) as Hmsg.
    { intros url. unfold downloading_message. by rewrite Hv. }
    destruct Hmain as [r evs' Hr Hevs|a evs' Hres Hskip
                      |a evs' url f r w1 Hres Hskip Hurl Hf Hdl Hr
                      |a evs' url f w1 r Hres Hskip Hurl Hf Hdl Hrec Hr
                      |a evs' url f w1 w2 Hres Hskip Hurl Hf Hdl Hrec].
    - exists evs'. split; [done|]. left. by apply Hbefore.
    - exists (evs' ++ hit_message args). split; [done|]. left.
      unfold hit_message. rewrite Hv, app_nil_r. apply Hbefore. by destruct Hres as (_ & _ & _ & ?).
    - rewrite Hv, Hmsg, app_nil_r in Hdl.
      destruct (download_file_quiet _ _ _ _ _ _ _ Hdl) as (evsd & -> & Hq & _).
      eexists. rewrite play_app. split; [done|]. left.
      rewrite stdout_of_app, Hq, app_nil_r. apply Hbefore. by destruct Hres as (_ & _ & _ & ?).
    - rewrite Hv, Hmsg, app_nil_r in Hdl.
      destruct (download_file_quiet _ _ _ _ _ _ _ Hdl) as (evsd & -> & Hq & _).
      eexists. rewrite play_app. split; [done|]. left.
      rewrite stdout_of_app, Hq, app_nil_r. apply Hbefore. by destruct Hres as (_ & _ & _ & ?).
    - rewrite Hv, Hmsg, app_nil_r in Hdl.
      destruct (download_file_quiet _ _ _ _ _ _ _ Hdl) as (evsd & -> & Hq & Hopen).
      assert (stdout_of evs' = []) as Hq' by (apply Hbefore; by destruct Hres as (_ & _ & _ & ?)).
      assert (done_message rt args f = [EvStdout (resolve rt f +:+ newline)]) as ->.
      { unfold done_message. by rewrite Hv. }
      destruct (record_cases _ _ _ _ _ _ Hrec) as [[? _]|[(_ & _ & ->)|(_ & p & id & _ & _ & ->)]];
        [done| |]; rewrite !play_app; eexists; (split; [done|]); right; (split; [done|]);
        exists f; rewrite !stdout_of_app, Hq, Hq'; (split; [|done]);
        rewrite !in_app_iff; auto. }
  unfold script in Hscript.
  destruct (main fuel rt args w) as [[[]|e|] w1] eqn:Hm;
    destruct (Hmain _ _ eq_refl) as (evs1 & -> & Hout).
  - injection Hscript as <- <-. simpl in Htrace. apply app_inv_head in Htrace. subst evs1.
    destruct Hout as [?|[_ ?]]; [by left|by right].
  - assert (∃ ev, quiet ev = true ∧ (∀ s, ev ≠ EvStdout s)
                  ∧ trace w' = (trace w ++ evs1) ++ [ev]) as (ev & _ & Hev & Hw').
    { destruct (arg_traceback args); injection Hscript as <- <-; eexists; by repeat split. }
    rewrite Hw', <- app_assoc in Htrace. apply app_inv_head in Htrace. subst evs.
    left. rewrite stdout_of_app. destruct Hout as [->|[? _]]; [|done].
    destruct ev; simpl; try done. by destruct (Hev s).
  - injection Hscript as <- <-. simpl in Htrace. apply app_inv_head in Htrace. subst evs1.
    destruct Hout as [?|[? _]]; [by left|done].
Qed.

Lemma quiet_script_stdout_witness :
  stdout_of (trace (snd (script 2 Toy.rt ToyRuns.args_alias (ToyRuns.cached "5")))) = [].
Proof.
  destruct (quiet_script_stdout 2 Toy.rt ToyRuns.args_alias (ToyRuns.cached "5")
              (fst (script 2 Toy.rt ToyRuns.args_alias (ToyRuns.cached "5")))
              (snd (script 2 Toy.rt ToyRuns.args_alias (ToyRuns.cached "5")))
              (trace (snd (script 2 Toy.rt ToyRuns.args_alias (ToyRuns.cached "5")))))
    as [H|[H _]].
  - reflexivity.
  - apply surjective_pairing.
  - reflexivity.
  - exact H.
  - vm_compute in H. discriminate H.
Defined.

(** ** Running the script again *)

(** A computation is blind when its outcome does not depend on the world
    it starts in: it may write to the world but does not read it. *)
Definition blind {A} (m : M A) : Prop := ∀ w w', fst (m w) = fst (m w').

Lemma blind_ret {A} (a : A) : blind (ret a).
Proof. done. Qed.

Lemma blind_raise {A} e : blind (@raise A e).
Proof. done. Qed.

Lemma blind_lift {A} (o : outcome A) : blind (lift o).
Proof. done. Qed.

Lemma blind_emit e : blind (emit e).
Proof. done. Qed.

Lemma blind_bind {A B} (m : M A) (k : A → M B) :
  blind m → (∀ a, blind (k a)) → blind (bind m k).
Proof.
  intros Hm Hk w w'. unfold bind. specialize (Hm w w').
  destruct (m w) as [[a| |] w1], (m w') as [[a'| |] w1']; simpl in *; try done.
  - injection Hm as <-. apply Hk.
  - by injection Hm as <-.
Qed.

Lemma blind_when c (m : M unit) : blind m → blind (when c m).
Proof. by destruct c. Qed.

Lemma blind_urlopen rt r : blind (urlopen rt r).
Proof.
  unfold urlopen. apply blind_bind; [apply blind_emit|]. intros _. by destruct (net rt r).
Qed.

Lemma blind_fetch_page rt h url : blind (fetch_page rt h url).
Proof.
  unfold fetch_page. apply blind_bind; [apply blind_urlopen|]. intros res.
  apply blind_bind; [apply blind_lift|]. intros text. by destruct (json_loads rt text).
Qed.

Lemma blind_get_paged_next rt h g : blind (get_paged_next rt h g).
Proof.
  destruct g as [url|res|]; simpl; [apply blind_fetch_page| |done].
  destruct (opt_truthy (rel_next_link res)); [apply blind_fetch_page|done].
Qed.

Lemma blind_for_paged {A} fuel rt h g (body : pyval → outcome (option A)) :
  blind (for_paged fuel rt h g body).
Proof.
  revert g. induction fuel as [|fuel IH]; intros g; simpl; [done|].
  apply blind_bind; [apply blind_get_paged_next|]. intros [[page|] g']; [|done].
  apply blind_bind; [apply blind_lift|]. intros [v|]; [done|apply IH].
Qed.

(** The selection stage reads nothing of the local state. *)
Lemma blind_select_artifact fuel rt args h : blind (select_artifact fuel rt args h).
Proof.
  unfold select_artifact. destruct (opt_truthy (arg_workflow args)).
  - apply blind_bind.
    { unfold find_latest_successful_workflow_run.
      apply blind_bind; [apply blind_for_paged|]. intros r. apply blind_ret. }
    intros run. destruct (negb (py_truthy run)); [done|].
    apply blind_bind.
    { apply blind_when. repeat (apply blind_bind; [apply blind_lift|]; intros ?).
      apply blind_emit. }
    intros _. apply blind_bind; [apply blind_lift|]. intros run_id.
    unfold find_workflow_run_artifact.
    apply blind_bind; [apply blind_for_paged|]. intros r. apply blind_ret.
  - unfold find_latest_repo_artifact.
    apply blind_bind; [apply blind_for_paged|]. intros r. apply blind_ret.
Qed.

(** Lines 42 to 71 of [main]: all that comes before the cache guard, with
    the artifact as its value. *)
Definition found (fuel : nat) (rt : runtime) (args : Args) : M pyval :=
  let str := py_str (repr_container rt) in
  let token := py_or (arg_token args) (GITHUB_TOKEN rt) in
  if negb (opt_truthy token)
  then raise (RuntimeError "Please specify a GitHub personal access token") else
  let headers := make_headers (default "" token) in
  let! artifact := select_artifact fuel rt args headers in
  if negb (py_truthy artifact) then raise (RuntimeError "Artifact not found!") else
  when (arg_verbose args) (
    let! nm := lift (py_getitem artifact "name") in
    let! sz := lift (py_getitem artifact "size_in_bytes") in
    let! ca := lift (py_getitem artifact "created_at") in
    print ("Artifact found: " +:+ str nm +:+ " (" +:+ str sz +:+ " bytes), created on: "
           +:+ str ca));;
  ret artifact.

Lemma bind_assoc {A B C} (m : M A) (k : A → M B) (k' : B → M C) w :
  bind (bind m k) k' w = bind m (λ a, bind (k a) k') w.
Proof. unfold bind. by destruct (m w) as [[a| |] w1]. Qed.

Lemma bind_ext {A B} (m : M A) (k k' : A → M B) w :
  (∀ a w1, k a w1 = k' a w1) → bind m k w = bind m k' w.
Proof. intros H. unfold bind. destruct (m w) as [[a| |] w1]; [apply H|done..]. Qed.

Lemma main_found fuel rt args w :
  main fuel rt args w
  = (let! artifact := found fuel rt args in
     let! skip := should_skip rt (cache_path args) artifact in
     if skip then
       when (arg_verbose args) (print "Artifact already downladed, exiting")
     else
       fetch_and_record rt args
         (make_headers (default "" (py_or (arg_token args) (GITHUB_TOKEN rt))))
         (cache_path args) artifact) w.
Proof.
  unfold main, found.
  destruct (negb (opt_truthy (py_or (arg_token args) (GITHUB_TOKEN rt)))); [reflexivity|].
  rewrite bind_assoc. apply bind_ext. intros a w1.
  destruct (negb (py_truthy a)); [reflexivity|].
  rewrite bind_assoc. apply bind_ext. by intros [] w2.
Qed.

Lemma blind_found fuel rt args : blind (found fuel rt args).
Proof.
  unfold found.
  destruct (negb (opt_truthy (py_or (arg_token args) (GITHUB_TOKEN rt)))); [done|].
  apply blind_bind; [apply blind_select_artifact|]. intros a.
  destruct (negb (py_truthy a)); [done|].
  apply blind_bind; [|done].
  apply blind_when. repeat (apply blind_bind; [apply blind_lift|]; intros ?). apply blind_emit.
Qed.

Lemma emits_found fuel rt args : emits (net_or_out (arg_verbose args)) (found fuel rt args).
Proof.
  unfold found.
  destruct (negb (opt_truthy (py_or (arg_token args) (GITHUB_TOKEN rt)))); [apply emits_raise|].
  apply emits_bind; [apply emits_select_artifact|]. intros a.
  destruct (negb (py_truthy a)); [apply emits_raise|].
  apply emits_bind; [|intros _; apply emits_ret].
  apply emits_when. intros Hv.
  repeat (apply emits_bind; [apply emits_lift|]; intros ?). by apply emits_print.
Qed.

Lemma found_select fuel rt args w a w1 :
  found fuel rt args w = (Ret a, w1) →
  fst (select_artifact fuel rt args
         (make_headers (default "" (py_or (arg_token args) (GITHUB_TOKEN rt)))) w) = Ret a.
Proof.
  unfold found.
  destruct (negb (opt_truthy (py_or (arg_token args) (GITHUB_TOKEN rt)))); [done|].
  unfold bind at 1.
  destruct (select_artifact fuel rt args _ w) as [[a'| |] w']; [|done..].
  destruct (negb (py_truthy a')); [done|].
  unfold bind at 1.
  match goal with
  | |- context [when (arg_verbose args) ?m w'] =>
      destruct (when (arg_verbose args) m w') as [[[]| |] w2]; try done
  end.
  by intros [= <- <-].
Qed.

(** After a successful run with a cache file, the cache file holds the
    identifier of the artifact that was selected. *)
Lemma success_recorded fuel rt args w w1 a n p :
  main fuel rt args w = (Ret tt, w1) →
  cache_path args = Some p →
  fst (select_artifact fuel rt args
         (make_headers (default "" (py_or (arg_token args) (GITHUB_TOKEN rt)))) w) = Ret a →
  py_getitem a "id" = Ret (PInt n) →
  fs w1 !! p = Some (File (pretty n)).
Proof.
  intros Hmain Hcf Hsel Hid. apply main_cases in Hmain.
  inversion Hmain as [r evs Hr Hevs|a' evs Hres Hskip|a' evs url f r w' Hres Hskip Hurl Hf Hdl Hr
                     |a' evs url f w' r Hres Hskip Hurl Hf Hdl Hrec Hr
                     |a' evs url f w2 w3 Hres Hskip Hurl Hf Hdl Hrec]; subst.
  - done.
  - destruct Hres as (_ & Hsel' & _ & Hevs). rewrite Hsel in Hsel'. injection Hsel' as <-.
    pose proof (before_download_print _ _ _ _ _ _ Hevs (hit_message_printed args)) as Hall.
    rewrite (net_or_out_fs _ _ _ (before_download_net_or_out _ _ _ _ _ Hall)).
    apply before_download_net_or_out in Hevs.
    rewrite Hcf, should_skip_some, (net_or_out_fs _ _ _ Hevs) in Hskip.
    destruct (fs w !! p) as [[c|]|]; [|done..].
    rewrite Hid in Hskip. simpl in Hskip. injection Hskip as Heq.
    apply String.eqb_eq in Heq. apply (proj1 (universal_newlines_decimal c n)) in Heq.
    by subst c.
  - by destruct r.
  - done.
  - destruct Hres as (_ & Hsel' & _). rewrite Hsel in Hsel'. injection Hsel' as <-.
    rewrite play_untouched by apply done_message_no_path.
    rewrite Hcf in Hrec.
    destruct (record_cases _ _ _ _ _ _ Hrec) as [[? _]|[(_ & ? & _)|(_ & p' & id & [= <-] & Hid' & ->)]];
      [done..|].
    rewrite Hid in Hid'. injection Hid' as <-. simpl. apply lookup_insert_eq.
Qed.

(** X13.  The script is idempotent where the cache file is in use.  After
    a run that has succeeded, with a cache file and for an artifact whose
    identifier is an integer, the cache file holds that identifier; and a
    second run against the same listings succeeds as well, makes requests
    and prints when verbose, but opens and writes no file: every path is
    left as the first run left it. *)
Theorem second_run_skips fuel rt args w w1 a n p :
  main fuel rt args w = (Ret tt, w1) →
  cache_path args = Some p →
  fst (select_artifact fuel rt args
         (make_headers (default "" (py_or (arg_token args) (GITHUB_TOKEN rt)))) w) = Ret a →
  py_getitem a "id" = Ret (PInt n) →
  fs w1 !! p = Some (File (pretty n))
  ∧ ∃ evs,
      main fuel rt args w1 = (Ret tt, play w1 evs)
      ∧ Forall (net_or_out (arg_verbose args)) evs
      ∧ fs (play w1 evs) = fs w1.
Proof.
  intros Hmain Hcf Hsel Hid.
  pose proof (success_recorded _ _ _ _ _ _ _ _ Hmain Hcf Hsel Hid) as Hfile.
  split; [done|].
  assert (fst (found fuel rt args w) = Ret a) as Hfound.
  { rewrite main_found in Hmain. unfold bind at 1 in Hmain.
    destruct (found fuel rt args w) as [[a'| |] w'] eqn:Hf; [|done..].
    apply found_select in Hf. rewrite Hsel in Hf. by injection Hf as <-. }
  rewrite (blind_found fuel rt args w w1) in Hfound.
  rewrite main_found. unfold bind at 1.
  destruct (found fuel rt args w1) as [o w2] eqn:Hf. simpl in Hfound. subst o.
  destruct (emits_found _ _ _ _ _ _ Hf) as (evs1 & -> & Hevs1).
  unfold bind at 1.
  rewrite Hcf, (should_skip_cached _ _ _ _ _ _ _ _ Hid Hfile Hevs1).
  rewrite bool_decide_true by done.
  rewrite when_print, play_app.
  assert (Forall (net_or_out (arg_verbose args))
            (evs1 ++ (if arg_verbose args
                      then [EvStdout ("Artifact already downladed, exiting" +:+ newline)]
                      else []))) as Hall.
  { apply Forall_app. split; [done|]. destruct (arg_verbose args) eqn:Hv; by repeat constructor. }
  eexists. split; [done|]. split; [done|]. by eapply net_or_out_fs.
Qed.

Lemma second_run_skips_witness :
  ∃ evs,
    main 2 Toy.rt ToyRuns.args_cache (snd (main 2 Toy.rt ToyRuns.args_cache Toy.w0))
    = (Ret tt, play (snd (main 2 Toy.rt ToyRuns.args_cache Toy.w0)) evs)
    ∧ fs (play (snd (main 2 Toy.rt ToyRuns.args_cache Toy.w0)) evs)
      = fs (snd (main 2 Toy.rt ToyRuns.args_cache Toy.w0)).
Proof.
  destruct (second_run_skips 2 Toy.rt ToyRuns.args_cache Toy.w0
              (snd (main 2 Toy.rt ToyRuns.args_cache Toy.w0)) Toy.docs 7 "last_id")
    as (_ & evs & Hrun & _ & Hfs).
  - vm_compute. reflexivity.
  - reflexivity.
  - vm_compute. reflexivity.
  - reflexivity.
  - exists evs. split; [exact Hrun|exact Hfs].
Defined.

(** ** The two stages of the selection: [main], lines 53 to 64 *)

Lemma getitem_truthy r key v : py_getitem r key = Ret v → py_truthy r = true.
Proof. destruct r as [| | | | |[|kv d]]; simpl; done. Qed.

Lemma has_field_getitem r key : has_field r key = true → ∃ v, py_getitem r key = Ret v.
Proof. unfold has_field. destruct (py_getitem r key) as [v| |]; [by exists v|done..]. Qed.

Lemma printed_nil evs : Forall (printed false) evs → evs = [].
Proof. destruct 1 as [|[] evs He _]; simpl in *; done. Qed.

(** X14.  With [--workflow] the artifact is looked for in one place: the
    listing of the artifacts of the first run that matches.  The
    selection requests the pages of runs up to that run's, then the pages
    of that run's artifacts, by its [id], up to the first artifact that
    matches, and answers that artifact.  It makes no request for the
    artifacts of the repository, and it does not go on to an older run
    when the run it has chosen holds no artifact that matches: it answers
    [None] then. *)
Theorem workflow_scopes_artifact fuel rt args h w upsR gR lsR run run_id upsA gA lsA :
  opt_truthy (arg_workflow args) = true →
  gen_yields rt h (GenStart (runs_url (arg_repository args))) upsR gR →
  Forall2 (λ up l, page_records "workflow_runs" (snd up) = Some l) upsR lsR →
  Forall (λ r, run_record r = true) (concat lsR) →
  find (run_matches (arg_workflow args) (arg_branch args)) (concat lsR) = Some run →
  (arg_verbose args = true →
   has_field run "event" = true ∧ has_field run "created_at" = true) →
  py_getitem run "id" = Ret run_id →
  gen_yields rt h (GenStart (artifacts_url rt (arg_repository args) (RunScope run_id))) upsA gA →
  Forall2 (λ up l, page_records "artifacts" (snd up) = Some l) upsA lsA →
  (arg_artifact args ≠ None → Forall (λ a, artifact_record a = true) (concat lsA)) →
  existsb (artifact_matches (arg_artifact args)) (concat lsA) = true ∨ gen_exhausted gA →
  (length upsR < fuel)%nat →
  (length upsA < fuel)%nat →
  ∃ msg,
    select_artifact fuel rt args h w
    = (Ret (default PNone (find (artifact_matches (arg_artifact args)) (concat lsA))),
       add_events w
         (requests h (take (pages_scanned (run_matches (arg_workflow args) (arg_branch args)) lsR)
                        upsR)
          ++ msg
          ++ requests h (take (pages_scanned (artifact_matches (arg_artifact args)) lsA) upsA)))
    ∧ Forall (printed (arg_verbose args)) msg
    ∧ (arg_verbose args = false → msg = []).
Proof.
  intros Hwf HyR HrecR HwfR Hrun Hdesc Hid HyA HrecA HwfA HendA HfuelR HfuelA.
  set (reqsR := requests h (take (pages_scanned (run_matches (arg_workflow args)
                                                   (arg_branch args)) lsR) upsR)).
  set (reqsA := requests h (take (pages_scanned (artifact_matches (arg_artifact args)) lsA) upsA)).
  assert (find_latest_successful_workflow_run fuel rt (arg_repository args) (arg_workflow args)
            (arg_branch args) h w = (Ret run, add_events w reqsR)) as HR.
  { unfold find_latest_successful_workflow_run, bind.
    rewrite (for_paged_ext _ _ _ _ _ _ _ (scan_runs_select (arg_workflow args) (arg_branch args))).
    fold (runs_url (arg_repository args)).
    rewrite (selector_first_match _ _ _ _ _ _ _ _ _ _ _ HyR HrecR
               (run_selector_test (arg_workflow args) (arg_branch args) _ HwfR)); [|left|done].
    - by rewrite Hrun.
    - rewrite find_existsb. by rewrite Hrun. }
  assert (∀ w1, find_workflow_run_artifact fuel rt (arg_repository args) run_id (arg_artifact args)
                  h w1
                = (Ret (default PNone (find (artifact_matches (arg_artifact args)) (concat lsA))),
                   add_events w1 reqsA)) as HA.
  { intros w1.
    change (find_workflow_run_artifact fuel rt (arg_repository args) run_id (arg_artifact args) h)
      with (find_artifact fuel rt (arg_repository args) (RunScope run_id) (arg_artifact args) h).
    rewrite find_artifact_unfold. unfold bind.
    rewrite (for_paged_ext _ _ _ _ _ _ _ (scan_artifacts_select (arg_artifact args))).
    rewrite (selector_first_match _ _ _ _ _ (artifact_matches (arg_artifact args))
               _ _ _ _ _ HyA HrecA); [done| |done..].
    destruct (arg_artifact args) as [n|].
    - eapply Forall_impl; [by apply HwfA|]. intros a Ha. simpl in Ha.
      by apply artifact_selected_record.
    - by apply Forall_true. }
  assert (py_truthy run = true) as Htruthy by (by eapply getitem_truthy).
  assert (run_record run = true) as Hrec.
  { apply find_some in Hrun as [Hin _]. rewrite Forall_forall in HwfR.
    apply HwfR. by apply list_elem_of_In. }
  unfold select_artifact. rewrite Hwf.
  rewrite (bind_ret _ _ _ _ _ HR). rewrite Htruthy. simpl negb. cbv iota.
  match goal with
  | |- context [bind (when (arg_verbose args) ?m) ?k] =>
      assert (∃ msg, when (arg_verbose args) m (add_events w reqsR)
                     = (Ret tt, add_events (add_events w reqsR) msg)
                     ∧ Forall (printed (arg_verbose args)) msg
                     ∧ (arg_verbose args = false → msg = []))
        as (msg & Hwhen & Hmsg & Hnil)
  end.
  { destruct (arg_verbose args) eqn:Hv; simpl.
    - destruct (Hdesc eq_refl) as [(ev & Hev)%has_field_getitem (ca & Hca)%has_field_getitem].
      unfold run_record in Hrec. apply andb_prop in Hrec as [[_ Hnm]%andb_prop Hhb].
      apply has_field_getitem in Hnm as (nm & Hnm). apply has_field_getitem in Hhb as (hb & Hhb).
      unfold bind, lift. rewrite Hev, Hhb, Hnm, Hca. eexists [_].
      split; [reflexivity|]. split; [by repeat constructor|done].
    - exists []. unfold ret. by rewrite add_events_nil. }
  exists msg. split; [|done].
  change (negb true) with false. cbv beta iota.
  unfold bind at 1. rewrite Hwhen.
  unfold bind at 1, lift. by rewrite Hid, HA, !add_events_app.
Qed.

Module ToyWorkflow.
Import Toy.

Definition args_ci : Args :=
  {| arg_repository := "acme/widget"; arg_token := None; arg_artifact := Some "build";
     arg_filename := None; arg_workflow := Some "CI"; arg_branch := Some "main";
     arg_cache_file := None; arg_traceback := false; arg_verbose := false |}.

Definition run_pages : list (string * pyval) :=
  [(artifacts_url rt "acme/widget" (RunScope (PInt 38)), artifacts_page)].

Lemma run_artifacts_yield :
  gen_yields rt hdrs (GenStart (artifacts_url rt "acme/widget" (RunScope (PInt 38)))) run_pages
    (GenYielded {| link := None; body := "artifacts"; complete := true |}).
Proof. eapply gen_yields_cons; [reflexivity..|]. apply gen_yields_nil. Defined.

End ToyWorkflow.

Lemma workflow_scopes_artifact_witness :
  ∃ msg,
    select_artifact 3 Toy.rt ToyWorkflow.args_ci Toy.hdrs Toy.w0
    = (Ret Toy.build,
       add_events Toy.w0
         (requests Toy.hdrs Toy.runs_pages ++ msg ++ requests Toy.hdrs ToyWorkflow.run_pages)).
Proof.
  destruct (workflow_scopes_artifact 3 Toy.rt ToyWorkflow.args_ci Toy.hdrs Toy.w0
              Toy.runs_pages
              (GenYielded {| link := None; body := "runs 2"%string; complete := true |})
              [[Toy.run_a; Toy.run_b]; [Toy.run_c; Toy.run_d]]
              Toy.run_d (PInt 38)
              ToyWorkflow.run_pages
              (GenYielded {| link := None; body := "artifacts"%string; complete := true |})
              [[Toy.docs; Toy.build]])
    as (msg & Hsel & _).
  - reflexivity.
  - exact Toy.runs_yield.
  - repeat constructor.
  - repeat constructor.
  - reflexivity.
  - discriminate.
  - reflexivity.
  - exact ToyWorkflow.run_artifacts_yield.
  - repeat constructor.
  - intros _. repeat constructor.
  - left. reflexivity.
  - simpl. lia.
  - simpl. lia.
  - exists msg. exact Hsel.
Defined.
